(** * AR-Detection: a shallow embedding of the four pipeline scripts

    The repository holds four Python scripts that drive an atmospheric-river
    pipeline:

    - [compute_ivt.py]          IVT magnitude from the two flux components;
    - [compute_ivt-anomaly.py]  background / anomaly decomposition of IVT;
    - [detect_ARs.py]           per-time-step detection, labels and records;
    - [trace_ARs.py]            linking records into tracks and filtering them.

    Part I embeds the data model and the operations of the scripts, one module
    per script.  Part II states and proves the properties. *)

From Stdlib Require Import ZArith Lia Reals Lra Ascii String.
From Stdlib Require DecimalString DecimalZ.
From stdpp Require Import base tactics option list sorting gmap strings.

Set Default Proof Using "Type".

(* ===================================================================== *)
(** * Part I: definitions                                                 *)
(* ===================================================================== *)

(** ** Python exceptions and fallible computations *)

Inductive exn : Type :=
| TypeError
| IndexError
| ValueError
| NameError (name : string)
| Exception (msg : string).

Inductive result (A : Type) : Type :=
| Ok (a : A)
| Raise (e : exn).
Arguments Ok {A} a.
Arguments Raise {A} e.

#[global] Instance result_ret : MRet result := fun A a => Ok a.
#[global] Instance result_bind : MBind result := fun A B f m =>
  match m with
  | Ok a => f a
  | Raise e => Raise e
  end.

Definition raises {A} (m : result A) : Prop :=
  match m with Ok _ => False | Raise _ => True end.

(** ** numpy arrays: a shape and a row-major buffer *)

Module Np.

Record ndarray (V : Type) : Type := NdArray { shape : list nat; data : list V }.
Arguments NdArray {V} _ _.
Arguments shape {V} _.
Arguments data {V} _.

Definition ndim {V} (a : ndarray V) : nat := length (shape a).

(** Number of cells of a shape. *)
Definition nelems (shp : list nat) : nat := foldr Nat.mul 1 shp.

(** Row-major position of a multi-index. *)
Fixpoint ravel (shp idx : list nat) : nat :=
  match shp, idx with
  | _ :: shp', i :: idx' => i * nelems shp' + ravel shp' idx'
  | _, _ => 0
  end.

(** All multi-indices of a shape, in row-major order ([np.ndindex]). *)
Fixpoint indices (shp : list nat) : list (list nat) :=
  match shp with
  | [] => [[]]
  | d :: shp' => i ← seq 0 d; (cons i) <$> indices shp'
  end.

Definition in_bounds (idx shp : list nat) : Prop := Forall2 lt idx shp.

(** The buffer of an array holds one value per cell. *)
Definition wf {V} (a : ndarray V) : Prop := length (data a) = nelems (shape a).

(** [a[idx]] for an in-range multi-index. *)
Definition item {V} `{Inhabited V} (a : ndarray V) (idx : list nat) : V :=
  data a !!! ravel (shape a) idx.

(** The array of a given shape whose cell [idx] holds [f idx]. *)
Definition tabulate {V} (shp : list nat) (f : list nat → V) : ndarray V :=
  NdArray shp (f <$> indices shp).

(** [np.zeros(shape)] and [np.ones(shape)]. *)
Definition full {V} (shp : list nat) (v : V) : ndarray V :=
  NdArray shp (replicate (nelems shp) v).

(** numpy broadcasting of two shapes, aligned on the last axis. *)
Fixpoint broadcast_rev (s1 s2 : list nat) : option (list nat) :=
  match s1, s2 with
  | [], s => Some s
  | s, [] => Some s
  | d1 :: r1, d2 :: r2 =>
      r ← broadcast_rev r1 r2;
      if decide (d1 = d2) then Some (d1 :: r)
      else if decide (d1 = 1) then Some (d2 :: r)
      else if decide (d2 = 1) then Some (d1 :: r)
      else None
  end.

Definition broadcast_shapes (s1 s2 : list nat) : option (list nat) :=
  reverse <$> broadcast_rev (reverse s1) (reverse s2).

(** The cell of an operand of shape [shp] that a result index reads: leading
    result axes the operand lacks are dropped, axes of length 1 are read at 0. *)
Definition bidx (shp idx : list nat) : list nat :=
  zip_with (fun d i => if decide (d = 1) then 0 else i) shp
           (drop (length idx - length shp) idx).

(** Elementwise binary operation with broadcasting; shapes that do not
    broadcast raise [ValueError]. *)
Definition binop {U V W} `{Inhabited U} `{Inhabited V}
    (f : U → V → W) (a : ndarray U) (b : ndarray V) : result (ndarray W) :=
  match broadcast_shapes (shape a) (shape b) with
  | Some shp =>
      Ok (tabulate shp (fun idx =>
            f (item a (bidx (shape a) idx)) (item b (bidx (shape b) idx))))
  | None => Raise ValueError
  end.

(** Elementwise unary operation. *)
Definition unop {U V} (f : U → V) (a : ndarray U) : ndarray V :=
  NdArray (shape a) (f <$> data a).

(** [a(squeeze=1)] / [a.squeeze()]: axes of length 1 are removed. *)
Definition squeeze {V} (a : ndarray V) : ndarray V :=
  NdArray (filter (fun d => d ≠ 1) (shape a)) (data a).

(** [addExtraAxis(a, ax, 1)]: a new axis of length 1 at position 1. *)
Definition addExtraAxis {V} (a : ndarray V) (pos : nat) : ndarray V :=
  NdArray (take pos (shape a) ++ 1 :: drop pos (shape a)) (data a).

End Np.

(** ** Python strings, slices and paths *)

Module Py.

(** A Python [str] is a list of characters. *)
Abbreviation str := (list ascii).
Definition s2l (s : string) : str := list_ascii_of_string s.

(** [s[a:b]] with Python's clamping of either bound; [None] is an omitted
    bound and a negative bound counts from the end. *)
Definition clamp (len : nat) (i : Z) : nat :=
  if decide (i < 0)%Z then Z.to_nat (Z.of_nat len + i) else Nat.min (Z.to_nat i) len.

Definition slice {A} (s : list A) (a b : option Z) : list A :=
  let len := length s in
  let lo := from_option (clamp len) 0 a in
  let hi := from_option (clamp len) len b in
  take (hi - lo) (drop lo s).

(** [os.path.join(d, name)] on POSIX. *)
Definition is_abs (p : str) : bool :=
  match p with c :: _ => bool_decide (c = "/"%char) | [] => false end.

Definition path_join (d name : str) : str :=
  if is_abs name then name
  else match last d with
       | Some c => if decide (c = "/"%char) then d ++ name else d ++ "/"%char :: name
       | None => name
       end.

(** The part of [s] after its last occurrence of [c], and the part before it
    ([None] when [c] does not occur). *)
Fixpoint after_last (c : ascii) (s : str) : option str :=
  match s with
  | [] => None
  | x :: s' =>
      match after_last c s' with
      | Some r => Some r
      | None => if decide (x = c) then Some s' else None
      end
  end.

Fixpoint before_last (c : ascii) (s : str) : option str :=
  match s with
  | [] => None
  | x :: s' =>
      match before_last c s' with
      | Some r => Some (x :: r)
      | None => if decide (x = c) then Some [] else None
      end
  end.

(** [os.path.split(p)[1]]. *)
Definition basename (p : str) : str := default p (after_last "/"%char p).

(** [os.path.splitext(name)[0]] for a name without directory part: the
    extension starts at the last dot, unless only dots precede it. *)
Definition splitext_root (name : str) : str :=
  match before_last "."%char name with
  | Some r => if forallb (fun c => bool_decide (c = "."%char)) r then name else r
  | None => name
  end.

(** The paths that exist on disk. *)
Abbreviation disk := (gset (list ascii)).

(** The skip loop shared by the batch drivers:
    [for file in files: if os.path.exists(expected(file)): continue
     else: filename.append(file)]. *)
Definition pending (existing : disk) (expected : str → str) (files : list str) : list str :=
  filter (fun file => expected file ∉ existing) files.

(** [glob.glob(pre + "*" + suf)]: the existing paths that start with [pre],
    end with [suf], and have no separator in between. *)
Definition glob_match (pre suf p : str) : Prop :=
  pre `prefix_of` p ∧ suf `suffix_of` drop (length pre) p ∧
  "/"%char ∉ take (length p - length pre - length suf) (drop (length pre) p).

Definition glob (pre suf : str) (existing : disk) : list str :=
  filter (glob_match pre suf) (elements existing).

(** The order of [list.sort()] on strings: by character code, a proper
    prefix first. *)
Fixpoint str_leb (a b : str) : bool :=
  match a, b with
  | [], _ => true
  | _ :: _, [] => false
  | x :: a', y :: b' =>
      if (nat_of_ascii x <? nat_of_ascii y)%nat then true
      else if (nat_of_ascii x =? nat_of_ascii y)%nat then str_leb a' b'
      else false
  end.

Definition str_le (a b : str) : Prop := str_leb a b.

Definition sort (l : list str) : list str := merge_sort str_le l.

(** ['%d' % z] and [str(n)]: the decimal digits, with a minus sign for a
    negative number. *)
Definition str_of_Z (z : Z) : str := s2l (DecimalString.NilZero.string_of_int (Z.to_int z)).
Definition str_of_nat (n : nat) : str := str_of_Z (Z.of_nat n).

(** [s.zfill(width)] for a string without sign. *)
Definition zfill (width : nat) (s : str) : str :=
  replicate (width - length s) "0"%char ++ s.

(** [l.sort(key=key)] on strings. *)
Definition sort_by_key (key : str → str) (l : list str) : list str :=
  merge_sort (fun a b => str_le (key a) (key b)) l.

End Py.

(** ** numpy slicing and concatenation along the second axis *)

Module NpAxis.
Import Np.

(** [a[:, lo:hi]]: an array with fewer than two axes has no second axis to
    slice ([IndexError]). *)
Definition slice_axis1 {V} `{Inhabited V} (a : ndarray V) (lo hi : option Z)
    : result (ndarray V) :=
  match shape a !! 1 with
  | None => Raise IndexError
  | Some d =>
      let l := from_option (Py.clamp d) 0 lo in
      let h := from_option (Py.clamp d) d hi in
      Ok (tabulate (<[1 := h - l]> (shape a))
            (fun idx => item a (alter (fun j => j + l) 1 idx)))
  end.

(** [np.concatenate((a, b), axis=1)]: the shapes have to agree on every
    axis but the second. *)
Definition concatenate_axis1 {V} `{Inhabited V} (a b : ndarray V) : result (ndarray V) :=
  match shape a !! 1, shape b !! 1 with
  | Some da, Some db =>
      if decide (<[1 := 0]> (shape a) = <[1 := 0]> (shape b))
      then Ok (tabulate (<[1 := da + db]> (shape a))
                 (fun idx =>
                    if decide (idx !!! 1 < da) then item a idx
                    else item b (alter (fun j => j - da) 1 idx)))
      else Raise ValueError
  | _, _ => Raise ValueError
  end.

(** [l.index(x)]: the position of the first occurrence. *)
Fixpoint list_index {A} `{EqDecision A} (x : A) (l : list A) : result nat :=
  match l with
  | [] => Raise ValueError
  | y :: l' => if decide (y = x) then Ok 0 else i ← list_index x l'; Ok (S i)
  end.

End NpAxis.

(** ** [compute_ivt-anomaly.py] *)

Module Anomaly.
Import Np.

(** *** Globals *)

Definition KERNEL : list Z := [4%Z].
Definition OUTPUTDIR : Py.str := Py.s2l "/home/jingzhao/wangbp/era5/ivt250_summer_mon/".

(** *** The structuring element *)

(** Modelled from the spec: [funcs.get3DEllipse] of the [utils] package is
    missing; the structuring element is "the set of integer offsets satisfying
    an ellipsoid equation bounded by the half-extents".  The equation
    [(dt/t)^2 + (dy/y)^2 + (dx/x)^2 <= 1] is written with the denominators
    cleared; the offsets range over [-t..t] x [-y..y] x [-x..x]. *)
Definition in_ellipsoid (t y x dt dy dx : Z) : bool :=
  bool_decide (dt^2 * y^2 * x^2 + dy^2 * t^2 * x^2 + dx^2 * t^2 * y^2 ≤ t^2 * y^2 * x^2)%Z.

Definition get3DEllipse (t y x : Z) : ndarray bool :=
  tabulate [Z.to_nat (2 * t + 1); Z.to_nat (2 * y + 1); Z.to_nat (2 * x + 1)]
    (fun idx =>
       match idx with
       | [a; b; c] => in_ellipsoid t y x (Z.of_nat a - t) (Z.of_nat b - y) (Z.of_nat c - x)
       | _ => false
       end).

(** [funcs.get3DEllipse( *kernel )]: the unpacked list has to supply exactly
    the three positional arguments. *)
Definition get3DEllipse_star (kernel : list Z) : result (ndarray bool) :=
  match kernel with
  | [t; y; x] => Ok (get3DEllipse t y x)
  | _ => Raise TypeError
  end.

(** [kernel[i]]. *)
Definition getitem (kernel : list Z) (i : nat) : result Z :=
  match kernel !! i with
  | Some v => Ok v
  | None => Raise IndexError
  end.

(** Lines 171-176 of [filterData]: the ellipsoid, replaced by [np.ones] of
    the same shape when [kernel[0]>=10 or kernel[1]>=6]. *)
Definition structuring_element (kernel : list Z) : result (ndarray bool) :=
  ele ← get3DEllipse_star kernel;
  k0 ← getitem kernel 0;
  if bool_decide (10 ≤ k0)%Z then Ok (full (shape ele) true)
  else
    k1 ← getitem kernel 1;
    if bool_decide (6 ≤ k1)%Z then Ok (full (shape ele) true) else Ok ele.

(** *** Grey-scale morphology *)

(** The cell reached from [idx] by the footprint cell [e] of a footprint
    centred at [cen]; [None] when it falls outside the field. *)
Fixpoint shifted (shp idx e cen : list nat) : option (list nat) :=
  match shp, idx, e, cen with
  | [], [], [], [] => Some []
  | d :: shp', i :: idx', e0 :: e', c :: cen' =>
      let z := (Z.of_nat i + Z.of_nat e0 - Z.of_nat c)%Z in
      if decide (0 ≤ z < Z.of_nat d)%Z
      then (cons (Z.to_nat z)) <$> shifted shp' idx' e' cen'
      else None
  | _, _, _, _ => None
  end.

Definition centre (ele : ndarray bool) : list nat := (fun d => d / 2) <$> shape ele.

(** The values of [img] over the footprint placed at [idx], truncated at the
    borders of the field. *)
Definition neighbourhood (img : ndarray Z) (ele : ndarray bool) (idx : list nat) : list Z :=
  omap (fun e => if item ele e
                 then item img <$> shifted (shape img) idx e (centre ele)
                 else None)
       (indices (shape ele)).

(** Modelled from the spec: [skimage.morphology.erosion] is library code; the
    marker is the "pointwise minimum over the structuring-element
    neighborhood, with truncated/clamped neighborhoods at time/space
    boundaries".  A cell whose truncated neighbourhood is empty keeps its
    value.  A footprint of another rank than the image is refused. *)
Definition erosion (img : ndarray Z) (ele : ndarray bool) : result (ndarray Z) :=
  if decide (ndim ele = ndim img)
  then Ok (tabulate (shape img) (fun idx =>
             match neighbourhood img ele idx with
             | [] => item img idx
             | v :: vs => foldr Z.min v vs
             end))
  else Raise ValueError.

(** One geodesic dilation: dilate over the unit neighbourhood (the call passes
    no footprint), then clip to the mask. *)
Definition unit_cube (n : nat) : ndarray bool := full (replicate n 3) true.

Definition geodesic_step (mask m : ndarray Z) : ndarray Z :=
  tabulate (shape mask) (fun idx =>
    Z.min (match neighbourhood m (unit_cube (ndim mask)) idx with
           | [] => item m idx
           | v :: vs => foldr Z.max v vs
           end)
          (item mask idx)).

Fixpoint iterate_to_fixpoint (fuel : nat) (mask m : ndarray Z) : ndarray Z :=
  match fuel with
  | 0 => m
  | S fuel' =>
      let m' := geodesic_step mask m in
      if decide (data m' = data m) then m else iterate_to_fixpoint fuel' mask m'
  end.

(** The total room left between seed and mask: every step that changes the
    field uses up at least one unit of it. *)
Definition headroom (seed mask : ndarray Z) : Z :=
  foldr Z.add 0%Z ((fun idx => item mask idx - item seed idx)%Z <$> indices (shape mask)).

(** Modelled from the spec: [skimage.morphology.reconstruction(seed, mask,
    method='dilation')] is library code; the background is obtained by
    "iteratively dilat[ing] the marker ... and clip[ping] to the raw field as
    an upper bound, repeating to a fixed point".  A seed of another shape, or
    one that exceeds the mask somewhere, is refused. *)
Definition reconstruction (seed mask : ndarray Z) : result (ndarray Z) :=
  if decide (shape seed = shape mask ∧
             Forall (fun idx => item seed idx ≤ item mask idx)%Z (indices (shape mask)))
  then Ok (iterate_to_fixpoint (S (Z.to_nat (headroom seed mask))) mask seed)
  else Raise ValueError.

(** *** The two decompositions *)

(** Lines 193-206, shared by both functions: the level axis squeezed away is
    put back when the input was 4-D; the results take over the axes of [ivt],
    which their shape has to fit. *)
Definition restore_axes (ndim0 : nat) (ivt ivtrec ivtano : ndarray Z)
    : result (ndarray Z * ndarray Z * ndarray Z) :=
  if decide (shape ivtrec = shape ivt ∧ shape ivtano = shape ivt)
  then
    if decide (ndim0 = 4)
    then Ok (addExtraAxis ivt 1, addExtraAxis ivtrec 1, addExtraAxis ivtano 1)
    else Ok (ivt, ivtrec, ivtano)
  else Raise ValueError.

(** [filterData(ivt, kernel)]: returns [(ivt, ivtrec, ivtano)]. *)
Definition filterData (ivt : ndarray Z) (kernel : list Z)
    : result (ndarray Z * ndarray Z * ndarray Z) :=
  let ndim0 := ndim ivt in
  let ivt := squeeze ivt in
  ele ← structuring_element kernel;
  lm ← erosion ivt ele;
  ivtrec ← reconstruction lm ivt;
  ivtano ← binop Z.sub ivt ivtrec;
  restore_axes ndim0 ivt ivtrec ivtano.

(** [filterData_250(ivt, ivt_mean)]: returns [(ivt, ivtrec, ivtano)]. *)
Definition filterData_250 (ivt ivt_mean : ndarray Z)
    : result (ndarray Z * ndarray Z * ndarray Z) :=
  let ndim0 := ndim ivt in
  let ivt := squeeze ivt in
  ivtrec ← binop Z.sub ivt ivt_mean;
  ivtano ← binop Z.sub ivt ivt_mean;
  restore_axes ndim0 ivt ivtrec ivtano.

(** The decomposition step of [main] (line 247; the call of [filterData] on
    line 246 is commented out).  [var] is the field after the selection of
    the latitude and longitude domain, [IVT_mean] the map read by
    [np.loadtxt]. *)
Definition main_decompose (var IVT_mean : ndarray Z)
    : result (ndarray Z * ndarray Z * ndarray Z) :=
  filterData_250 var IVT_mean.

(** *** Shifting the longitudes *)

(** [shift_lon_varid(varid, lon, SHIFT_LON)] (lines 223-232). *)
Definition shift_lon_varid {V A} `{Inhabited V} `{EqDecision A}
    (varid : ndarray V) (lon : list A) (SHIFT_LON : A) : result (ndarray V) :=
  shift_lon_index ← NpAxis.list_index SHIFT_LON lon;
  varid_right ← NpAxis.slice_axis1 varid (Some (Z.of_nat shift_lon_index)) None;
  varid_left ← NpAxis.slice_axis1 varid None (Some (Z.of_nat shift_lon_index));
  NpAxis.concatenate_axis1 varid_right varid_left.

(** *** The batch driver *)

Definition IVT_FILE : list Py.str :=
  [ Py.s2l "/home/jingzhao/wangbp/era5/ivt_summer_mon/era5_ivt_201108.nc";
    Py.s2l "/home/jingzhao/wangbp/era5/ivt_summer_mon/era5_ivt_201508.nc" ].

(** The file [main(IVT_FILE)] writes (lines 250-257). *)
Definition main_output (IVT_FILE : Py.str) : Py.str :=
  let fname := Py.basename IVT_FILE in
  let file_out_name := Py.splitext_root fname ++ Py.s2l "-ano-250.nc" in
  Py.path_join OUTPUTDIR file_out_name.

(** The file the driver looks for before it queues an input (lines 297-298). *)
Definition expected_output (file : Py.str) : Py.str :=
  let name := Py.slice file (Some (-18)%Z) (Some (-3)%Z) ++ Py.s2l "-ano-250.nc" in
  Py.path_join OUTPUTDIR name.

(** The list handed to [pool.map(main, filename)] (lines 295-305). *)
Definition filename (existing : Py.disk) : list Py.str :=
  Py.pending existing expected_output IVT_FILE.

(** The disk after a batch in which every queued task has written its file. *)
Definition after_batch (existing : Py.disk) : Py.disk :=
  existing ∪ list_to_set (main_output <$> filename existing).

End Anomaly.

(** ** [compute_ivt.py] *)

Module Ivt.
Import Np.

(** Flux values are real numbers here; the rounding of the floating-point
    operations is not modelled. *)
#[global] Instance R_inhabited : Inhabited R := populate 0%R.

(** [a**2], elementwise. *)
Definition square (a : ndarray R) : ndarray R := unop (fun v => v * v)%R a.

(** [np.ma.sqrt]: a cell with a negative argument is masked ([None]). *)
Definition ma_sqrt (v : R) : option R :=
  if Rlt_dec v 0 then None else Some (sqrt v).

(** Line 36 of [main]:
    [ivtdata=np.ma.sqrt(ufluxNV.data**2+vfluxNV.data**2)]. *)
Definition ivtdata (uflux vflux : ndarray R) : result (ndarray (option R)) :=
  s ← binop Rplus (square uflux) (square vflux);
  Ok (unop ma_sqrt s).

(** *** The output file *)

Definition OUTPUTFILE : Py.str := Py.s2l "/home/jingzhao/wangbp/era5/ivt_summer_mon/".

(** The file [main(UFLUX_FILE)] writes (lines 44-47). *)
Definition main_output (UFLUX_FILE : Py.str) : Py.str :=
  let IVT_FILE :=
    Py.s2l "era5_ivt_" ++ Py.slice UFLUX_FILE (Some (-9)%Z) (Some (-3)%Z) ++ Py.s2l ".nc" in
  Py.path_join OUTPUTFILE IVT_FILE.

End Ivt.

(** ** [detect_ARs.py] *)

Module Detect.
Import Np.

(** *** Globals *)

Definition OUTPUTDIR : Py.str := Py.s2l "/home/jingzhao/wangbp/era5/arinfo_asia_250/".
Definition PLOT : bool := true.

(** *** Values, name spaces and the two output files *)

(** A table of AR records ([pandas.DataFrame]): column names and rows. *)
Record DataFrame : Type := { columns : list string; rows : list (list string) }.

(** The lines of a csv file. *)
Inductive csv_line : Type :=
| Header (cols : list string)
| Row (cells : list string).

(** [df.to_csv(f, header=h, index=False)]: the lines appended to [f]. *)
Definition to_csv (df : DataFrame) (header : bool) : list csv_line :=
  (if header then [Header (columns df)] else []) ++ (Row <$> rows df).

(** What has been written into a netCDF data set. *)
Inductive nc_entry : Type :=
| NcDims (axes : list nat)
| NcVar (v : ndarray Z) (dtype : option string).

(** The values a name can be bound to, as far as [main] tells them apart. *)
Inductive pyval : Type :=
| VInt (n : Z)
| VArr (a : ndarray Z)
| VFrame (df : DataFrame)
| VObj.

Abbreviation namespace := (gmap string pyval).

(** Name resolution inside [main]: the local scope, then the module scope
    (no builtin is called [angle] or [cross]). *)
Definition lookup_name (locals globals : namespace) (x : string) : result pyval :=
  match locals !! x with
  | Some v => Ok v
  | None =>
      match globals !! x with
      | Some v => Ok v
      | None => Raise (NameError x)
      end
  end.

(** The names bound at module level: the globals, the imports, [main], and
    the names the [__main__] block binds before it starts the pool (with a
    value put in for the placeholder [xxx] of [num = xxx]). *)
Definition module_globals : namespace :=
  list_to_map ((fun x => (x, VObj)) <$>
    [ "OUTPUTDIR"; "PLOT"; "LAT1"; "LAT2"; "SHIFT_LON"; "PARAM_DICT";
      "print_function"; "os"; "sys"; "np"; "matplotlib"; "plt"; "Dataset";
      "time"; "glob"; "multiprocessing"; "funcs"; "plot"; "plotAR";
      "findARsGen"; "main"; "time_start"; "num"; "mon"; "SOURCEDIR";
      "RECORD_FILE"; "abpath_in"; "IVT_FILE_NAME"; "IVT_FILE_NAME_mon" ]%string).

(** The names [main] has bound when the loop starts. *)
Definition main_locals : namespace :=
  list_to_map ((fun x => (x, VObj)) <$>
    [ "IVT_FILE_NAME"; "YEAR"; "MONTH"; "LABEL_FILE_OUT_NAME";
      "RECORD_FILE_OUT_NAME"; "ivtNV"; "ivtrecNV"; "ivtanoNV"; "quNV"; "qvNV";
      "latax"; "lonax"; "timeax"; "plot_dir"; "abpath_out"; "ncfout"; "dfout";
      "finder_gen" ]%string).

(** The record file ([dfout], opened for appending) and the label file
    ([ncfout]) of one run. *)
Record outputs : Type := { csv : list csv_line; nc : list nc_entry }.

(** [dfout.tell()==0]: the position of a file opened for appending is its
    end, and every line holds at least its line break. *)
Definition tell_is_0 (st : outputs) : bool := bool_decide (csv st = []).

(** [funcs._saveNCVAR(ncfout, var, dtype)]. *)
Definition saveNCVAR (st : outputs) (v : pyval) (dtype : option string)
    : result outputs :=
  match v with
  | VArr a => Ok {| csv := csv st; nc := nc st ++ [NcVar a dtype] |}
  | _ => Raise TypeError
  end.

(** *** The loop of [main] over the detection generator *)

(** One item of the generator: [(tidx, timett, label, result_df)]. *)
Record step : Type :=
  { tidx : Z; timett : Z; label : ndarray Z; result_df : DataFrame }.

(** The body of the loop (lines 253-262); plotting (lines 265-295) writes
    neither of the two files.  The state is returned along with the
    exception: what was written stays written. *)
Definition save_step (globals locals : namespace) (s : step) (st : outputs)
    : result namespace * outputs :=
  let locals :=
    <["result_df" := VFrame (result_df s)]>
      (<["label" := VArr (label s)]>
         (<["timett" := VInt (timett s)]>
            (<["tidx" := VInt (tidx s)]> locals))) in
  (* result_df.to_csv(dfout, header=dfout.tell()==0, index=False) *)
  let st := {| csv := csv st ++ to_csv (result_df s) (tell_is_0 st); nc := nc st |} in
  (* funcs.saveNCDims(ncfout, label.axislist) *)
  let st := {| csv := csv st; nc := nc st ++ [NcDims (shape (label s))] |} in
  (* funcs._saveNCVAR(ncfout, label, 'int') *)
  match saveNCVAR st (VArr (label s)) (Some "int"%string) with
  | Raise e => (Raise e, st)
  | Ok st =>
      (* funcs._saveNCVAR(ncfout, angle) *)
      match lookup_name locals globals "angle" with
      | Raise e => (Raise e, st)
      | Ok angle =>
          match saveNCVAR st angle None with
          | Raise e => (Raise e, st)
          | Ok st =>
              (* funcs._saveNCVAR(ncfout, cross) *)
              match lookup_name locals globals "cross" with
              | Raise e => (Raise e, st)
              | Ok cross =>
                  match saveNCVAR st cross None with
                  | Raise e => (Raise e, st)
                  | Ok st => (Ok locals, st)
                  end
              end
          end
      end
  end.

(** [for (tidx, timett, label, result_df) in finder_gen: ...] over the items
    that the (primed) generator yields. *)
Fixpoint save_steps (globals locals : namespace) (steps : list step) (st : outputs)
    : result unit * outputs :=
  match steps with
  | [] => (Ok tt, st)
  | s :: steps' =>
      match save_step globals locals s st with
      | (Ok locals', st') => save_steps globals locals' steps' st'
      | (Raise e, st') => (Raise e, st')
      end
  end.

(** Number of header lines in a record file. *)
Definition is_header (l : csv_line) : bool :=
  match l with Header _ => true | Row _ => false end.
Definition count_headers (ls : list csv_line) : nat :=
  length (List.filter is_header ls).

(** *** The shape check and [main] *)

(** Lines 209-213. *)
Definition shape_check {A B C} (qu : ndarray A) (qv : ndarray B) (ivt : ndarray C)
    : result unit :=
  if decide (ndim qu ≠ 3 ∨ ndim qv ≠ 3)
  then Raise (Exception "<qu> and <qv> should be 3D data.")
  else if decide (shape qu ≠ shape qv ∨ shape ivt ≠ shape qu)
  then Raise (Exception "Data shape dismatch")
  else Ok tt.

(** What a path can hold: an input file with the variables [ivt], [ivt_rec]
    and [ivt_ano]; a label file; a record file. *)
Inductive file : Type :=
| NcInput (ivt ivt_rec ivt_ano : ndarray Z)
| NcOutput (entries : list nc_entry)
| CsvFile (lines : list csv_line).

Abbreviation filesystem := (gmap Py.str file).

(** The detection generator [findARsGen] of the [ipart] package, as far as
    [main] depends on it: the items it yields for the fields it is given. *)
Definition finder : Type :=
  ndarray Z → ndarray Z → ndarray Z → ndarray Z → ndarray Z → list step.

Definition LABEL_FILE_OUT_NAME (IVT_FILE_NAME : Py.str) : Py.str :=
  Py.s2l "ar_label-angle-flux_"
    ++ Py.slice IVT_FILE_NAME (Some (-17)%Z) (Some (-13)%Z)
    ++ Py.slice IVT_FILE_NAME (Some (-13)%Z) (Some (-11)%Z) ++ Py.s2l ".nc".

Definition RECORD_FILE_OUT_NAME (IVT_FILE_NAME : Py.str) : Py.str :=
  Py.s2l "ar_records_"
    ++ Py.slice IVT_FILE_NAME (Some (-17)%Z) (Some (-13)%Z)
    ++ Py.slice IVT_FILE_NAME (Some (-13)%Z) (Some (-11)%Z) ++ Py.s2l ".csv".

(** [main(IVT_FILE_NAME)] on a file system.  The latitude selection
    [sliceData(LAT1, LAT2)] keeps the whole domain [-90..90]; the flux fields
    are the zero fields of lines 205-206. *)
Definition main (gen : finder) (fs : filesystem) (IVT_FILE_NAME : Py.str)
    : result unit * filesystem :=
  match fs !! IVT_FILE_NAME with
  | Some (NcInput ivt ivt_rec ivt_ano) =>
      let ivtNV := squeeze ivt in
      let ivtrecNV := squeeze ivt_rec in
      let ivtanoNV := squeeze ivt_ano in
      let quNV := full (shape ivtNV) 0%Z in
      let qvNV := full (shape ivtNV) 0%Z in
      match shape_check quNV qvNV ivtNV with
      | Raise e => (Raise e, fs)
      | Ok _ =>
          let label_path := Py.path_join OUTPUTDIR (LABEL_FILE_OUT_NAME IVT_FILE_NAME) in
          let record_path := Py.path_join OUTPUTDIR (RECORD_FILE_OUT_NAME IVT_FILE_NAME) in
          (* ncfout=Dataset(abpath_out, 'w'); open(abpath_out, 'a') *)
          let st0 := {| csv := match fs !! record_path with
                               | Some (CsvFile ls) => ls
                               | _ => []
                               end;
                        nc := [] |} in
          let '(r, st) := save_steps module_globals main_locals
                            (gen ivtNV ivtrecNV ivtanoNV quNV qvNV) st0 in
          (r, <[record_path := CsvFile (csv st)]>
                (<[label_path := NcOutput (nc st)]> fs))
      end
  | _ => (Raise (Exception "readNC"), fs)
  end.

(** [pool.map(main, IVT_FILE_NAME)] at the granularity of files: every file
    is a task of its own (the batches of 24 files of the driver are split
    into chunks of one file), run by a worker process; the tasks share the
    file system and nothing else; a task that raises is reported as failed
    and the other tasks still run.  The interleaving of the workers is not
    modelled: the tasks are taken in the order of the list. *)
Fixpoint pool_map (task : filesystem → Py.str → result unit * filesystem)
    (files : list Py.str) (fs : filesystem) : list (result unit) * filesystem :=
  match files with
  | [] => ([], fs)
  | f :: files' =>
      let '(r, fs1) := task fs f in
      let '(rs, fs2) := pool_map task files' fs1 in
      (r :: rs, fs2)
  end.

(** *** The paths of the two output files (lines 230 and 235) *)

Definition label_path (IVT_FILE_NAME : Py.str) : Py.str :=
  Py.path_join OUTPUTDIR (LABEL_FILE_OUT_NAME IVT_FILE_NAME).

Definition record_path (IVT_FILE_NAME : Py.str) : Py.str :=
  Py.path_join OUTPUTDIR (RECORD_FILE_OUT_NAME IVT_FILE_NAME).

(** *** The batch driver (lines 311-328) *)

Definition SOURCEDIR : Py.str := Py.s2l "/home/jingzhao/wangbp/era5/ivt250_summer_mon/".

(** [glob.glob(abpath_in)] for one month: the pattern is
    [SOURCEDIR + 'era5_ivt_*' + str(mon).zfill(2) + '-ano-250.nc']. *)
Definition month_files (existing : Py.disk) (mon : nat) : list Py.str :=
  Py.glob (Py.path_join SOURCEDIR (Py.s2l "era5_ivt_"))
          (Py.zfill 2 (Py.str_of_nat mon) ++ Py.s2l "-ano-250.nc") existing.

(** The list built by the loop [for mon in range(5,10)], before sorting. *)
Definition IVT_FILE_NAME_unsorted (existing : Py.disk) : list Py.str :=
  mon ← seq 5 5; month_files existing mon.

(** [IVT_FILE_NAME.sort(key = lambda x: x[-17:-11])]. *)
Definition IVT_FILE_NAME (existing : Py.disk) : list Py.str :=
  Py.sort_by_key (fun x => Py.slice x (Some (-17)%Z) (Some (-11)%Z))
                 (IVT_FILE_NAME_unsorted existing).

(** Lines 325-328: the files of batch [num]. *)
Definition select_batch (num : Z) (files : list Py.str) : list Py.str :=
  if decide (num < 6)%Z
  then Py.slice files (Some (num * 24)%Z) (Some ((num + 1) * 24)%Z)
  else Py.slice files (Some (num * 24)%Z) None.

End Detect.

(** ** [trace_ARs.py] *)

Module Trace.

(** *** Globals *)

Definition RECORD_FILE_IN_NAME : Py.str :=
  Py.s2l "/home/jingzhao/wangbp/era5/AR_TEST/THR/arinfo_250/ar_records_*00.csv".
Definition OUTPUTDIR : Py.str := Py.s2l "/home/jingzhao/wangbp/era5/AR_TEST/THR/tracks/".
Definition TIME_GAP_ALLOW : Z := 6.
Definition MAX_DIST_ALLOW : Z := 1200.
Definition MIN_DURATION : Z := 24.
Definition MIN_NONRELAX : Z := 2.

(** *** Records and tracks *)

(** One AR record of the input table: its id, its time (in hours), the
    relaxed flag and the grid cells of the region. *)
Record ARrecord : Type :=
  { ar_id : Z; ar_time : Z; is_relaxed : bool; cells : list (Z * Z) }.

#[global] Instance ARrecord_eq_dec : EqDecision ARrecord.
Proof. solve_decision. Defined.

(** A track: its records in time order. *)
Abbreviation Track := (list ARrecord).

(** *** TrackFilter *)

(** Modelled from the spec: [filterTracks] of [ipart.AR_tracer] is missing;
    "duration = last-member time - first-member time". *)
Definition duration (t : Track) : Z :=
  match t, last t with
  | r0 :: _, Some rn => ar_time rn - ar_time r0
  | _, _ => 0
  end.

(** Modelled from the spec: "nonrelax_count = count of members with
    [relaxed = false]". *)
Definition nonrelax_count (t : Track) : Z :=
  Z.of_nat (length (filter (fun r => is_relaxed r = false) t)).

(** Modelled from the spec: [filterTracks] of [ipart.AR_tracer] is missing;
    "Keep iff duration >= min_duration AND nonrelax_count >= min_nonrelax;
    otherwise drop.  Output order: stable". *)
Definition filterTracks (track_list : list Track) (min_duration min_nonrelax : Z)
    : list Track :=
  filter (fun t => (min_duration ≤ duration t)%Z ∧ (min_nonrelax ≤ nonrelax_count t)%Z)
         track_list.

(** Line 97 of [main]. *)
Definition filter_stage (track_list : list Track) : list Track :=
  filterTracks track_list MIN_DURATION MIN_NONRELAX.

(** *** TrackLinker, simple scheme *)

(** Modelled from the spec: [trackARs] of [ipart.AR_tracer] is missing.  The
    geodesic distance between two cells (in km) is a parameter [dist]; the
    Hausdorff distance is "the larger of the two directed point-set
    distances between two candidate regions". *)
Definition directed_hausdorff (dist : Z * Z → Z * Z → Z) (A B : list (Z * Z)) : Z :=
  foldr Z.max 0%Z
    ((fun a => match B with
               | [] => 0%Z
               | b :: B' => foldr Z.min (dist a b) (dist a <$> B')
               end) <$> A).

Definition hausdorff (dist : Z * Z → Z * Z → Z) (a b : ARrecord) : Z :=
  Z.max (directed_hausdorff dist (cells a) (cells b))
        (directed_hausdorff dist (cells b) (cells a)).

(** Modelled from the spec: "For every pair of time slices whose time
    difference <= time_gap_allow ... a pair is a neighbor edge iff distance
    <= max_dist_allow (boundary inclusive)"; [a] is the earlier record. *)
Definition neighbor_edge (dist : Z * Z → Z * Z → Z) (time_gap_allow max_dist_allow : Z)
    (a b : ARrecord) : Prop :=
  (0 < ar_time b - ar_time a ≤ time_gap_allow)%Z ∧ (hausdorff dist a b ≤ max_dist_allow)%Z.

(** Modelled from the spec: "select the single best continuation by smallest
    Hausdorff distance (ties broken by smallest candidate id)": the order on
    (distance, id) pairs. *)
Definition key_le (k1 k2 : Z * Z) : Prop :=
  (k1.1 < k2.1)%Z ∨ (k1.1 = k2.1 ∧ k1.2 ≤ k2.2)%Z.

(** The first record of least key. *)
Fixpoint best (key : ARrecord → Z * Z) (cands : list ARrecord) : option ARrecord :=
  match cands with
  | [] => None
  | c :: cands' =>
      match best key cands' with
      | Some b => if decide (key_le (key c) (key b)) then Some c else Some b
      | None => Some c
      end
  end.

(** What the rule asks of the chosen record. *)
Definition is_best (key : ARrecord → Z * Z) (cands : list ARrecord) (b : ARrecord) : Prop :=
  b ∈ cands ∧ ∀ c, c ∈ cands → key_le (key b) (key c).

Section Linker.
Variable dist : Z * Z → Z * Z → Z.
Variables time_gap_allow max_dist_allow : Z.
Variable records : list ARrecord.

Definition successors (a : ARrecord) : list ARrecord :=
  filter (neighbor_edge dist time_gap_allow max_dist_allow a) records.

Definition predecessors (b : ARrecord) : list ARrecord :=
  filter (fun a => neighbor_edge dist time_gap_allow max_dist_allow a b) records.

Definition best_successor (a : ARrecord) : option ARrecord :=
  best (fun b => (hausdorff dist a b, ar_id b)) (successors a).

Definition best_predecessor (b : ARrecord) : option ARrecord :=
  best (fun a => (hausdorff dist a b, ar_id a)) (predecessors b).

(** Modelled from the spec: "decompose the graph into non-branching chains
    only": [a] is continued by [b] when each is the best continuation of the
    other; every other neighbour of [a] starts a track of its own. *)
Definition link (a : ARrecord) : option ARrecord :=
  match best_successor a with
  | Some b => if decide (best_predecessor b = Some a) then Some b else None
  | None => None
  end.

(** The rule as a relation, and what it asks of a linkage. *)
Definition is_link (a b : ARrecord) : Prop :=
  is_best (fun b => (hausdorff dist a b, ar_id b)) (successors a) b ∧
  is_best (fun a => (hausdorff dist a b, ar_id a)) (predecessors b) a.

Definition is_linkage (next : ARrecord → option ARrecord) : Prop :=
  ∀ a b, a ∈ records → (next a = Some b ↔ is_link a b).

(** The chain that starts at [a]. *)
Fixpoint chain (next : ARrecord → option ARrecord) (fuel : nat) (a : ARrecord) : Track :=
  match fuel with
  | 0 => [a]
  | S fuel' =>
      match next a with
      | Some b => a :: chain next fuel' b
      | None => [a]
      end
  end.

(** The tracks of a linkage: one chain from every record that continues no
    other record, in the order of the input table. *)
Definition tracks_of (next : ARrecord → option ARrecord) : list Track :=
  chain next (length records) <$>
    filter (fun b => Forall (fun a => next a ≠ Some b) records) records.

Definition trackARs_simple : list Track := tracks_of link.

End Linker.

(** Lines 93-94 of [main], with [TRACK_SCHEME='simple']. *)
Definition track_stage (dist : Z * Z → Z * Z → Z) (ardf : list ARrecord) : list Track :=
  trackARs_simple dist TIME_GAP_ALLOW MAX_DIST_ALLOW ardf.

(** *** The batch driver *)

(** The file [main(filename)] writes (lines 77-78 and 134). *)
Definition main_output (filename : Py.str) : Py.str :=
  let name := Py.slice filename (Some (-18)%Z) (Some (-4)%Z) in
  let RECORD_FILE_OUT_NAME := Py.s2l "ar_tracks_" ++ name ++ Py.s2l ".csv" in
  Py.path_join OUTPUTDIR RECORD_FILE_OUT_NAME.

(** The file the driver looks for before it queues an input (lines 156-157). *)
Definition expected_output (file : Py.str) : Py.str :=
  let name := Py.s2l "ar_tracks_" ++ Py.slice file (Some (-18)%Z) None in
  Py.path_join OUTPUTDIR name.

(** [filelist=glob.glob(RECORD_FILE_IN_NAME); filelist.sort()]. *)
Definition filelist (existing : Py.disk) : list Py.str :=
  Py.sort (Py.glob (Py.s2l "/home/jingzhao/wangbp/era5/AR_TEST/THR/arinfo_250/ar_records_")
                   (Py.s2l "00.csv") existing).

(** The list handed to [pool.map(main, filename)] (lines 154-165). *)
Definition filename (existing : Py.disk) : list Py.str :=
  Py.pending existing expected_output (filelist existing).

(** The disk after a batch in which every queued task has written its file. *)
Definition after_batch (existing : Py.disk) : Py.disk :=
  existing ∪ list_to_set (main_output <$> filename existing).

(** *** Saving the tracks (lines 103-140 of [main]) *)

(** The fields of a time stamp that [main] reads. *)
Record datetime : Type := { dt_year : Z; dt_month : Z; dt_day : Z; dt_hour : Z }.

(** A row of the table [tii.data] of a track: its time and its other columns. *)
Record track_row : Type := { row_time : datetime; row_rest : list string }.

(** A row of [trackdf]: the row of the track with the columns [trackid],
    [year], [mon], [day] and [hour] that the loop adds. *)
Record out_row : Type :=
  { out_row_of : track_row; trackid : Py.str; year : Z; mon : Z; day : Z; hour : Z }.

(** ['%d%d' %(tii.data.loc[0,'time'].year, ii+1)]. *)
Definition make_trackid (first_year : Z) (ii : nat) : Py.str :=
  Py.str_of_Z first_year ++ Py.str_of_Z (Z.of_nat ii + 1).

(** Lines 106-111: the track id on every row, and the fields of its time. *)
Definition add_columns (trackidii : Py.str) (r : track_row) : out_row :=
  {| out_row_of := r; trackid := trackidii;
     year := dt_year (row_time r); mon := dt_month (row_time r);
     day := dt_day (row_time r); hour := dt_hour (row_time r) |}.

Definition plot_dir (filename : Py.str) : Py.str :=
  Py.path_join OUTPUTDIR (Py.s2l "plots_" ++ Py.slice filename (Some (-18)%Z) (Some (-4)%Z)).

(** The figure of one track (lines 126-129). *)
Definition plot_save_name (filename trackidii : Py.str) : Py.str :=
  Py.path_join (plot_dir filename) (Py.s2l "ar_track_" ++ trackidii) ++ Py.s2l ".png".

(** The loop over the tracks, from index [ii] on.  [trackdf] is [None] as
    long as the name is unbound; the figures saved so far are returned along
    with an exception.  A track without a row labelled 0 stops the loop at
    [tii.data.loc[0,'time']] (pandas raises [KeyError], given here as a
    general exception). *)
Fixpoint save_loop (filename : Py.str) (ii : nat) (track_list : list (list track_row))
    (trackdf : option (list out_row)) (figures : list Py.str)
    : result (option (list out_row)) * list Py.str :=
  match track_list with
  | [] => (Ok trackdf, figures)
  | tii :: track_list' =>
      match tii with
      | [] => (Raise (Exception "KeyError: 0"), figures)
      | r0 :: _ =>
          let trackidii := make_trackid (dt_year (row_time r0)) ii in
          let data := add_columns trackidii <$> tii in
          (* if ii==0: trackdf=tii.data
             else: trackdf=pd.concat([trackdf,tii.data],ignore_index=True) *)
          let bound :=
            if decide (ii = 0) then Ok data
            else match trackdf with
                 | Some df => Ok (df ++ data)
                 | None => Raise (NameError "trackdf")
                 end in
          match bound with
          | Raise e => (Raise e, figures)
          | Ok trackdf =>
              (* figure.savefig(plot_save_name+'.png', ...) *)
              save_loop filename (S ii) track_list' (Some trackdf)
                        (figures ++ [plot_save_name filename trackidii])
          end
      end
  end.

(** [main(filename)] from the filtered track list on: the directories made
    on lines 84-90, the figures, and the table written on line 140.  The
    result holds the rows written. *)
Definition main_save (existing : Py.disk) (filename : Py.str)
    (track_list : list (list track_row)) : result (list out_row) * Py.disk :=
  let existing := existing ∪ {[ OUTPUTDIR ]} ∪ {[ plot_dir filename ]} in
  match save_loop filename 0 track_list None [] with
  | (Raise e, figures) => (Raise e, existing ∪ list_to_set figures)
  | (Ok None, figures) => (Raise (NameError "trackdf"), existing ∪ list_to_set figures)
  | (Ok (Some trackdf), figures) =>
      (Ok trackdf, existing ∪ list_to_set figures ∪ {[ main_output filename ]})
  end.

End Trace.

(* ===================================================================== *)
(** * Part II: properties                                                 *)
(* ===================================================================== *)

Section NdArrayFacts.
Import Np.

Lemma nelems_cons d shp : nelems (d :: shp) = d * nelems shp.
Proof. reflexivity. Qed.

Lemma length_indices shp : length (indices shp) = nelems shp.
Proof.
  induction shp as [|d shp IH]; [done|].
  cbn [indices]. rewrite nelems_cons.
  generalize 0 at 1. induction d as [|d IHd]; intros s; [done|].
  cbn. rewrite length_app, length_fmap, IH. f_equal. apply IHd.
Qed.

Lemma lookup_bind_block {A B} (f : A → list B) (n : nat) (l : list A) i j x :
  (∀ y, length (f y) = n) → l !! i = Some x → j < n →
  (l ≫= f) !! (i * n + j) = f x !! j.
Proof.
  intros Hlen. revert i. induction l as [|y l IH]; intros i Hi Hj; [done|].
  rewrite bind_cons. destruct i as [|i]; simplify_eq/=.
  - rewrite lookup_app_l; [done|]. rewrite Hlen. lia.
  - rewrite lookup_app_r; rewrite Hlen; [|lia].
    replace (n + i * n + j - n) with (i * n + j) by lia. by apply IH.
Qed.

Lemma indices_lookup shp idx :
  in_bounds idx shp → indices shp !! ravel shp idx = Some idx.
Proof.
  induction 1 as [|i d idx shp Hi _ IH]; [done|].
  cbn [indices ravel].
  rewrite (lookup_bind_block _ (nelems shp) _ i _ i).
  - by rewrite list_lookup_fmap, IH.
  - intros y. by rewrite length_fmap, length_indices.
  - by apply lookup_seq_lt.
  - apply lookup_lt_Some in IH. by rewrite length_indices in IH.
Qed.

Lemma ravel_lt shp idx : in_bounds idx shp → ravel shp idx < nelems shp.
Proof.
  intros Hb. rewrite <-length_indices. eapply lookup_lt_Some, indices_lookup, Hb.
Qed.

Lemma item_tabulate {V} `{Inhabited V} shp (f : list nat → V) idx :
  in_bounds idx shp → item (tabulate shp f) idx = f idx.
Proof.
  intros Hb. unfold item, tabulate. cbn [data shape].
  apply list_lookup_total_correct.
  by rewrite list_lookup_fmap, indices_lookup.
Qed.

Lemma elem_of_indices shp idx : idx ∈ indices shp ↔ in_bounds idx shp.
Proof.
  revert idx. induction shp as [|d shp IH]; intros idx; cbn [indices].
  - rewrite list_elem_of_singleton. split; [intros ->; constructor|by inversion 1].
  - rewrite list_elem_of_bind. split.
    + intros (i & Hin & Hi). apply elem_of_seq in Hi.
      apply list_elem_of_fmap in Hin as (idx' & -> & Hin).
      constructor; [lia|]. by apply IH.
    + inversion 1 as [|i ? idx' ? Hi Hb']; subst. exists i. split.
      * apply list_elem_of_fmap. exists idx'. split; [done|]. by apply IH.
      * apply elem_of_seq. lia.
Qed.

Lemma lookup_bind_block_inv {A B} (f : A → list B) (n : nat) (l : list A) k y :
  (∀ x, length (f x) = n) → (l ≫= f) !! k = Some y →
  ∃ i j x, k = i * n + j ∧ j < n ∧ l !! i = Some x ∧ f x !! j = Some y.
Proof.
  intros Hlen. revert k. induction l as [|x l IH]; intros k Hk; [done|].
  rewrite bind_cons in Hk. destruct (decide (k < n)) as [Hlt|Hge].
  - rewrite lookup_app_l in Hk by (rewrite Hlen; lia).
    exists 0, k, x. split_and!; [lia|done|done|done].
  - rewrite lookup_app_r in Hk by (rewrite Hlen; lia). rewrite Hlen in Hk.
    destruct (IH _ Hk) as (i & j & x' & Hij & Hj & Hi & Hy).
    exists (S i), j, x'. split_and!; [lia|done|done|done].
Qed.

Lemma ravel_indices shp k idx : indices shp !! k = Some idx → ravel shp idx = k.
Proof.
  revert k idx. induction shp as [|d shp IH]; intros k idx Hk.
  - destruct k; by simplify_eq/=.
  - cbn [indices] in Hk.
    apply (lookup_bind_block_inv _ (nelems shp)) in Hk
      as (i & j & x & -> & Hj & Hi & Hy);
      [|intros y; by rewrite length_fmap, length_indices].
    apply lookup_seq in Hi as [-> _].
    rewrite list_lookup_fmap in Hy.
    destruct (indices shp !! j) as [idx'|] eqn:Hidx'; simplify_eq/=.
    by rewrite (IH _ _ Hidx').
Qed.

(** Every position of the buffer is the position of a multi-index. *)
Lemma position_index shp k :
  k < nelems shp → ∃ idx, in_bounds idx shp ∧ ravel shp idx = k.
Proof.
  intros Hk. rewrite <-length_indices in Hk.
  apply lookup_lt_is_Some_2 in Hk as [idx Hidx]. exists idx. split.
  - apply elem_of_indices. by eapply list_elem_of_lookup_2.
  - by apply ravel_indices.
Qed.

(** Two arrays over one buffer agree cell by cell, whatever their shapes,
    as long as the shapes count the same number of cells. *)
Lemma item_reshape shp shp' idx' :
  nelems shp' = nelems shp → in_bounds idx' shp' →
  ∃ idx, in_bounds idx shp ∧
    ∀ (V : Type) (HV : Inhabited V) (d : list V),
      item (NdArray shp' d) idx' = item (NdArray shp d) idx.
Proof.
  intros Hn Hb. apply ravel_lt in Hb. rewrite Hn in Hb.
  apply position_index in Hb as (idx & Hidx & Hr).
  exists idx. split; [done|]. intros V ? d. unfold item. cbn. by rewrite Hr.
Qed.

Lemma nelems_app s1 s2 : nelems (s1 ++ s2) = nelems s1 * nelems s2.
Proof.
  induction s1 as [|d s1 IH]; [unfold nelems; simpl; lia|].
  rewrite <-app_comm_cons, !nelems_cons, IH. lia.
Qed.

Lemma nelems_addExtraAxis {V} (a : ndarray V) pos :
  nelems (shape (addExtraAxis a pos)) = nelems (shape a).
Proof.
  cbn. rewrite nelems_app, nelems_cons, Nat.mul_1_l, <-nelems_app.
  by rewrite take_drop.
Qed.

Lemma item_full {V} `{Inhabited V} shp (v : V) idx :
  in_bounds idx shp → item (full shp v) idx = v.
Proof.
  intros Hb. unfold item, full. cbn.
  apply lookup_total_replicate_2. by apply ravel_lt.
Qed.

Lemma in_bounds_length idx shp : in_bounds idx shp → length idx = length shp.
Proof. apply Forall2_length. Qed.

Lemma broadcast_rev_same s : broadcast_rev s s = Some s.
Proof.
  induction s as [|d s IH]; [done|]. cbn. rewrite IH. cbn.
  by rewrite decide_True.
Qed.

Lemma broadcast_shapes_same s : broadcast_shapes s s = Some s.
Proof.
  unfold broadcast_shapes. rewrite broadcast_rev_same. cbn.
  by rewrite reverse_involutive.
Qed.

Lemma bidx_same shp idx : in_bounds idx shp → bidx shp idx = idx.
Proof.
  intros Hb. unfold bidx. rewrite (in_bounds_length _ _ Hb), Nat.sub_diag.
  rewrite drop_0. induction Hb as [|i d idx shp Hi _ IH]; [done|].
  cbn [zip_with]. rewrite IH. f_equal. case_decide; lia.
Qed.

(** Two operands of one shape: no broadcasting takes place. *)
Lemma binop_same_shape {U V W} `{Inhabited U} `{Inhabited V} `{Inhabited W}
    (f : U → V → W) (a : ndarray U) (b : ndarray V) :
  shape a = shape b →
  ∃ c, binop f a b = Ok c ∧ shape c = shape a ∧
    ∀ idx, in_bounds idx (shape a) → item c idx = f (item a idx) (item b idx).
Proof.
  intros Hs. unfold binop. rewrite <-Hs, broadcast_shapes_same.
  eexists. split; [done|]. split; [done|]. intros idx Hb.
  rewrite item_tabulate by done. by rewrite bidx_same.
Qed.

End NdArrayFacts.

(** ** The decompositions of [compute_ivt-anomaly.py] *)

Section AnomalyFacts.
Import Np Anomaly.
Local Open Scope Z_scope.

Lemma foldr_min_le v vs x : x ∈ v :: vs → foldr Z.min v vs ≤ x.
Proof.
  induction vs as [|w vs IH]; cbn.
  - rewrite list_elem_of_singleton. lia.
  - rewrite !elem_of_cons. intros [->|[->|Hx]]; [|lia|].
    + etrans; [apply Z.le_min_r|]. apply IH. left.
    + etrans; [apply Z.le_min_r|]. apply IH. by right.
Qed.

Lemma shifted_centre shp idx cen :
  in_bounds idx shp → length cen = length shp → shifted shp idx cen cen = Some idx.
Proof.
  intros Hb. revert cen. induction Hb as [|i d idx shp Hi _ IH]; intros cen Hlen.
  - by destruct cen.
  - destruct cen as [|c cen]; [done|]. cbn [shifted].
    rewrite decide_True by lia. rewrite IH by (cbn in Hlen; lia). cbn.
    do 2 f_equal. lia.
Qed.

Lemma indices_zero_dim shp : 0%nat ∈ shp → indices shp = [].
Proof.
  induction shp as [|d shp IH]; [by intros ?%elem_of_nil|].
  rewrite elem_of_cons. intros [<-|Hin]; [done|].
  cbn [indices]. rewrite IH by done. by induction (seq 0 d).
Qed.

Lemma neighbourhood_centre img ele idx :
  in_bounds (centre ele) (shape ele) → item ele (centre ele) = true →
  ndim ele = ndim img → in_bounds idx (shape img) →
  item img idx ∈ neighbourhood img ele idx.
Proof.
  intros Hc Hi Hn Hb. unfold neighbourhood. apply list_elem_of_omap.
  exists (centre ele). split; [by apply elem_of_indices|].
  rewrite Hi, shifted_centre; [done|done|].
  unfold centre. by rewrite length_fmap.
Qed.

(** A footprint is centred when it holds its own centre cell (or is empty). *)
Lemma erosion_le img ele lm idx :
  indices (shape ele) = [] ∨
    (in_bounds (centre ele) (shape ele) ∧ item ele (centre ele) = true) →
  erosion img ele = Ok lm → in_bounds idx (shape img) →
  item lm idx ≤ item img idx.
Proof.
  intros Hele. unfold erosion. case_decide as Hn; [|done].
  intros [= <-] Hb. rewrite item_tabulate by done.
  destruct Hele as [Hnil|[Hc Hi]].
  - unfold neighbourhood. by rewrite Hnil.
  - pose proof (neighbourhood_centre img ele idx Hc Hi Hn Hb) as Hin.
    destruct (neighbourhood img ele idx) as [|v vs]; [done|].
    by apply foldr_min_le.
Qed.

Lemma erosion_shape img ele lm : erosion img ele = Ok lm → shape lm = shape img.
Proof. unfold erosion. case_decide; [|done]. by intros [= <-]. Qed.

Lemma in_ellipsoid_origin t y x : in_ellipsoid t y x 0 0 0 = true.
Proof. unfold in_ellipsoid. apply bool_decide_eq_true. nia. Qed.

Lemma get3DEllipse_centred t y x :
  let ele := get3DEllipse t y x in
  indices (shape ele) = [] ∨
    (in_bounds (centre ele) (shape ele) ∧ item ele (centre ele) = true).
Proof.
  intros ele. destruct (decide (0 ≤ t ∧ 0 ≤ y ∧ 0 ≤ x)) as [(Ht & Hy & Hx)|Hneg].
  - right.
    assert (centre ele = [Z.to_nat t; Z.to_nat y; Z.to_nat x]) as ->.
    { unfold centre, ele, get3DEllipse, tabulate. cbn [shape fmap list_fmap].
      f_equal; [|f_equal; [|f_equal]];
        (symmetry; apply Nat.div_unique with (r := 1%nat); lia). }
    assert (in_bounds [Z.to_nat t; Z.to_nat y; Z.to_nat x] (shape ele)) as Hb.
    { repeat constructor; lia. }
    split; [done|]. unfold ele, get3DEllipse in *. rewrite item_tabulate by done.
    rewrite !Z2Nat.id, !Z.sub_diag by done. apply in_ellipsoid_origin.
  - left. apply indices_zero_dim. cbn [ele get3DEllipse tabulate shape].
    rewrite !elem_of_cons.
    destruct (decide (t < 0)); [left; lia|].
    destruct (decide (y < 0)); [right; left; lia|].
    right; right; left. lia.
Qed.

Lemma full_centred shp :
  indices (shape (full shp true)) = [] ∨
    (in_bounds (centre (full shp true)) (shape (full shp true)) ∧
     item (full shp true) (centre (full shp true)) = true).
Proof.
  destruct (decide (0%nat ∈ shp)) as [H0|H0].
  - left. by apply indices_zero_dim.
  - right. assert (in_bounds (centre (full shp true)) shp) as Hb.
    { unfold centre. cbn [shape full]. induction shp as [|d shp IH]; [constructor|].
      rewrite not_elem_of_cons in H0. destruct H0 as [Hd H0].
      rewrite fmap_cons. constructor; [|by apply IH].
      apply Nat.div_lt; lia. }
    split; [done|]. by apply item_full.
Qed.

Lemma structuring_element_centred kernel ele :
  structuring_element kernel = Ok ele →
  indices (shape ele) = [] ∨
    (in_bounds (centre ele) (shape ele) ∧ item ele (centre ele) = true).
Proof.
  unfold structuring_element, get3DEllipse_star.
  destruct kernel as [|t [|y [|x [|]]]]; try done. cbn.
  repeat case_bool_decide; intros [= <-];
    first [apply full_centred | apply get3DEllipse_centred].
Qed.

Lemma structuring_element_ndim kernel ele :
  structuring_element kernel = Ok ele → ndim ele = 3%nat.
Proof.
  unfold structuring_element, get3DEllipse_star.
  destruct kernel as [|t [|y [|x [|]]]]; try done. cbn.
  by repeat case_bool_decide; intros [= <-].
Qed.

Lemma structuring_element_ok t y x : ∃ ele, structuring_element [t; y; x] = Ok ele.
Proof.
  unfold structuring_element. cbn. repeat case_bool_decide; eauto.
Qed.

(** The kernel the script configures, [KERNEL=[4]], does not supply the
    three half-extents: [filterData] would stop at the structuring element. *)
Example filterData_KERNEL ivt : filterData ivt KERNEL = Raise TypeError.
Proof. reflexivity. Qed.

(** *** Reconstruction stays below the mask *)

Lemma geodesic_step_shape mask m : shape (geodesic_step mask m) = shape mask.
Proof. done. Qed.

Lemma geodesic_step_le mask m idx :
  in_bounds idx (shape mask) → item (geodesic_step mask m) idx ≤ item mask idx.
Proof.
  intros Hb. unfold geodesic_step. rewrite item_tabulate by done. apply Z.le_min_r.
Qed.

Lemma iterate_to_fixpoint_le fuel mask m :
  shape m = shape mask →
  (∀ idx, in_bounds idx (shape mask) → item m idx ≤ item mask idx) →
  shape (iterate_to_fixpoint fuel mask m) = shape mask ∧
  ∀ idx, in_bounds idx (shape mask) →
    item (iterate_to_fixpoint fuel mask m) idx ≤ item mask idx.
Proof.
  revert m. induction fuel as [|fuel IH]; intros m Hs Hle; [done|].
  cbn [iterate_to_fixpoint]. case_decide; [done|].
  apply IH; [done|]. intros idx Hb. by apply geodesic_step_le.
Qed.

Lemma reconstruction_le seed mask r :
  reconstruction seed mask = Ok r →
  shape r = shape mask ∧
  ∀ idx, in_bounds idx (shape mask) → item r idx ≤ item mask idx.
Proof.
  unfold reconstruction. case_decide as Hc; [|done]. intros Heq.
  replace r with (iterate_to_fixpoint (S (Z.to_nat (headroom seed mask))) mask seed)
    by congruence.
  destruct Hc as [Hs Hle]. apply iterate_to_fixpoint_le; [done|].
  intros idx Hb. rewrite Forall_forall in Hle. by apply Hle, elem_of_indices.
Qed.

Lemma reconstruction_ok seed mask :
  shape seed = shape mask →
  (∀ idx, in_bounds idx (shape mask) → item seed idx ≤ item mask idx) →
  ∃ r, reconstruction seed mask = Ok r.
Proof.
  intros Hs Hle. unfold reconstruction. rewrite decide_True; [eauto|].
  split; [done|]. apply Forall_forall. intros idx Hin. by apply Hle, elem_of_indices.
Qed.

(** *** Reconstruction reaches a fixed point *)

Lemma foldr_max_ge v vs x : x ∈ v :: vs → x ≤ foldr Z.max v vs.
Proof.
  induction vs as [|w vs IH]; cbn.
  - rewrite list_elem_of_singleton. lia.
  - rewrite !elem_of_cons. intros [->|[->|Hx]]; [|lia|].
    + etrans; [|apply Z.le_max_r]. apply IH. left.
    + etrans; [|apply Z.le_max_r]. apply IH. by right.
Qed.

Lemma unit_cube_centred n :
  in_bounds (centre (unit_cube n)) (shape (unit_cube n)) ∧
  item (unit_cube n) (centre (unit_cube n)) = true.
Proof.
  assert (in_bounds (centre (unit_cube n)) (replicate n 3%nat)) as Hb.
  { unfold centre, unit_cube. cbn [shape full].
    induction n as [|n IH]; [constructor|]. cbn. constructor; [|done].
    change (3 `div` 2)%nat with 1%nat. lia. }
  split; [done|]. by apply item_full.
Qed.

Lemma geodesic_step_ge mask m idx :
  shape m = shape mask → in_bounds idx (shape mask) →
  item m idx ≤ item mask idx → item m idx ≤ item (geodesic_step mask m) idx.
Proof.
  intros Hs Hb Hle. unfold geodesic_step. rewrite item_tabulate by done.
  apply Z.min_glb; [|done].
  destruct (unit_cube_centred (ndim mask)) as [Hc Hi].
  pose proof (neighbourhood_centre m (unit_cube (ndim mask)) idx Hc Hi) as Hin.
  destruct (neighbourhood m _ idx) as [|v vs].
  - done.
  - apply foldr_max_ge, Hin; [|by rewrite Hs].
    unfold ndim, unit_cube. cbn [shape full]. by rewrite length_replicate, Hs.
Qed.

(** Sums over the grid. *)
Lemma sum_le_mono {A} (f g : A → Z) l :
  (∀ x, x ∈ l → f x ≤ g x) →
  foldr Z.add 0 (f <$> l) ≤ foldr Z.add 0 (g <$> l).
Proof.
  induction l as [|x l IH]; intros H; [done|]. cbn.
  pose proof (H x (list_elem_of_here _ _)).
  assert (foldr Z.add 0 (f <$> l) ≤ foldr Z.add 0 (g <$> l)); [|lia].
  apply IH. intros y Hy. apply H. by right.
Qed.

Lemma sum_lt_mono {A} (f g : A → Z) l :
  (∀ x, x ∈ l → f x ≤ g x) → Exists (fun x => f x < g x) l →
  foldr Z.add 0 (f <$> l) < foldr Z.add 0 (g <$> l).
Proof.
  intros Hle Hex. induction Hex as [x l Hx|x l Hex IH]; cbn.
  - assert (foldr Z.add 0 (f <$> l) ≤ foldr Z.add 0 (g <$> l)); [|lia].
    apply sum_le_mono. intros y Hy. apply Hle. by right.
  - pose proof (Hle x (list_elem_of_here _ _)).
    assert (foldr Z.add 0 (f <$> l) < foldr Z.add 0 (g <$> l)); [|lia].
    apply IH. intros y Hy. apply Hle. by right.
Qed.

Lemma sum_zero {A} (l : list A) : foldr Z.add 0 ((fun _ => 0) <$> l) = 0.
Proof. induction l as [|x l IH]; [done|]. cbn. by rewrite IH. Qed.

Lemma geodesic_step_data mask m :
  data (geodesic_step mask m) = item (geodesic_step mask m) <$> indices (shape mask).
Proof.
  unfold geodesic_step at 1. cbn [data tabulate].
  apply list_fmap_ext. intros i idx Hidx.
  unfold geodesic_step. rewrite item_tabulate; [done|].
  apply elem_of_indices. by eapply list_elem_of_lookup_2.
Qed.

(** A field that is full, or a step that changes nothing: a fixed point. *)
Lemma iterate_to_fixpoint_fixed fuel mask m :
  shape m = shape mask →
  (∀ idx, in_bounds idx (shape mask) → item m idx ≤ item mask idx) →
  data m = item m <$> indices (shape mask) →
  headroom m mask ≤ Z.of_nat fuel →
  data (geodesic_step mask (iterate_to_fixpoint fuel mask m))
  = data (iterate_to_fixpoint fuel mask m).
Proof.
  revert m. induction fuel as [|fuel IH]; intros m Hs Hle Hd Hroom.
  - cbn [iterate_to_fixpoint]. rewrite geodesic_step_data, Hd.
    apply list_fmap_ext. intros i idx Hidx.
    assert (in_bounds idx (shape mask)) as Hb.
    { apply elem_of_indices. by eapply list_elem_of_lookup_2. }
    destruct (decide (item m idx = item mask idx)) as [Heq|Hne].
    + pose proof (geodesic_step_ge mask m idx Hs Hb (Hle idx Hb)).
      pose proof (geodesic_step_le mask m idx Hb). lia.
    + exfalso. unfold headroom in Hroom.
      assert (foldr Z.add 0 ((fun _ => 0) <$> indices (shape mask))
              < foldr Z.add 0 ((fun idx => item mask idx - item m idx)
                                 <$> indices (shape mask))) as Hlt.
      { apply sum_lt_mono.
        - intros x Hx%elem_of_indices. specialize (Hle x Hx). lia.
        - apply Exists_exists. exists idx.
          split; [by eapply list_elem_of_lookup_2|]. specialize (Hle idx Hb). lia. }
      rewrite sum_zero in Hlt. lia.
  - cbn [iterate_to_fixpoint]. case_decide as Hstep; [done|].
    apply IH.
    + done.
    + intros idx Hb. by apply geodesic_step_le.
    + apply geodesic_step_data.
    + assert (headroom (geodesic_step mask m) mask < headroom m mask); [|lia].
      unfold headroom. apply sum_lt_mono.
      * intros idx Hb%elem_of_indices.
        pose proof (geodesic_step_ge mask m idx Hs Hb (Hle idx Hb)). lia.
      * destruct (decide (Forall (fun idx => item (geodesic_step mask m) idx = item m idx)
                            (indices (shape mask)))) as [Hall|Hex].
        { destruct Hstep. rewrite geodesic_step_data, Hd.
          apply list_fmap_ext. intros i idx Hidx.
          rewrite Forall_forall in Hall. apply Hall. by eapply list_elem_of_lookup_2. }
        apply not_Forall_Exists in Hex; [|apply _].
        apply Exists_exists in Hex as (idx & Hin & Hne).
        apply Exists_exists. exists idx. split; [done|].
        apply elem_of_indices in Hin.
        pose proof (geodesic_step_ge mask m idx Hs Hin (Hle idx Hin)).
        unfold compose in Hne. lia.
Qed.

(** The background returned by [reconstruction] is a fixed point of the
    geodesic dilation: the fuel never runs out. *)
Lemma reconstruction_fixed seed mask r :
  reconstruction seed mask = Ok r → data (geodesic_step mask r) = data r.
Proof.
  unfold reconstruction. case_decide as Hc; [|done]. intros Heq.
  replace r with (iterate_to_fixpoint (S (Z.to_nat (headroom seed mask))) mask seed)
    by congruence.
  destruct Hc as [Hs Hle]. rewrite Forall_forall in Hle.
  cbn [iterate_to_fixpoint]. case_decide as Hstep; [done|].
  apply iterate_to_fixpoint_fixed.
  - done.
  - intros idx Hb. by apply geodesic_step_le.
  - apply geodesic_step_data.
  - assert (headroom (geodesic_step mask seed) mask ≤ headroom seed mask) as Hmono.
    { unfold headroom. apply sum_le_mono. intros idx Hin.
      pose proof (Hle idx Hin) as Hl. apply elem_of_indices in Hin.
      pose proof (geodesic_step_ge mask seed idx Hs Hin Hl). lia. }
    assert (0 ≤ headroom seed mask); [|lia].
    unfold headroom.
    etrans; [|apply (sum_le_mono (fun _ => 0))].
    + by rewrite sum_zero.
    + intros idx Hin. specialize (Hle idx Hin). lia.
Qed.

(** *** What [restore_axes] hands back *)

(** A relation between the cells of three fields of one shape carries over to
    the fields that [restore_axes] returns. *)
Lemma restore_axes_cells (P : Z → Z → Z → Prop) ndim0 ivt ivtrec ivtano :
  shape ivtrec = shape ivt → shape ivtano = shape ivt →
  (∀ idx, in_bounds idx (shape ivt) →
     P (item ivt idx) (item ivtrec idx) (item ivtano idx)) →
  ∃ raw rec ano,
    restore_axes ndim0 ivt ivtrec ivtano = Ok (raw, rec, ano) ∧
    data raw = data ivt ∧ shape rec = shape raw ∧ shape ano = shape raw ∧
    ∀ idx, in_bounds idx (shape raw) →
      P (item raw idx) (item rec idx) (item ano idx).
Proof.
  intros Hrec Hano HP. unfold restore_axes. rewrite decide_True by done.
  case_decide as H4; [|by eauto 10].
  do 3 eexists. split; [done|].
  destruct ivt as [s d], ivtrec as [s1 d1], ivtano as [s2 d2]. cbn in *. subst s1 s2.
  split; [done|]. split; [done|]. split; [done|]. intros idx' Hb'.
  destruct (item_reshape s _ idx' (nelems_addExtraAxis (NdArray s d) 1) Hb')
    as (idx & Hb & Heq).
  unfold addExtraAxis. cbn [shape data]. rewrite !Heq. by apply HP.
Qed.

(** *** [filterData]: the morphological path *)

Lemma filterData_cells ivt t y x :
  ndim (squeeze ivt) = 3%nat →
  ∃ raw rec ano,
    filterData ivt [t; y; x] = Ok (raw, rec, ano) ∧
    data raw = data ivt ∧ shape rec = shape raw ∧ shape ano = shape raw ∧
    ∀ idx, in_bounds idx (shape raw) →
      item rec idx ≤ item raw idx ∧ item ano idx = item raw idx - item rec idx.
Proof.
  intros H3. unfold filterData.
  destruct (structuring_element_ok t y x) as [ele Hele]. rewrite Hele. cbn [mbind result_bind].
  pose proof (structuring_element_ndim _ _ Hele) as Hn.
  pose proof (structuring_element_centred _ _ Hele) as Hc.
  destruct (erosion (squeeze ivt) ele) as [lm|] eqn:Hlm;
    [|unfold erosion in Hlm; rewrite decide_True in Hlm by congruence; done].
  cbn [mbind result_bind].
  pose proof (erosion_shape _ _ _ Hlm) as Hslm.
  destruct (reconstruction_ok lm (squeeze ivt) Hslm) as [r Hr].
  { intros idx Hb. by eapply erosion_le. }
  rewrite Hr. cbn [mbind result_bind].
  apply reconstruction_le in Hr as [Hsr Hler].
  destruct (binop_same_shape Z.sub (squeeze ivt) r) as (ano & -> & Hsa & Hano);
    [done|]. cbn [mbind result_bind].
  destruct (restore_axes_cells (fun v b a => b ≤ v ∧ a = v - b)
              (ndim ivt) (squeeze ivt) r ano Hsr Hsa)
    as (raw & rec & ano' & Hra & Hd & Hs1 & Hs2 & Hcells).
  { intros idx Hb. split; [by apply Hler|by apply Hano]. }
  exists raw, rec, ano'. by split_and!.
Qed.

(** *** [filterData_250]: the climatology path *)

Lemma filterData_250_same ivt ivt_mean raw rec ano :
  filterData_250 ivt ivt_mean = Ok (raw, rec, ano) → rec = ano.
Proof.
  unfold filterData_250.
  destruct (binop Z.sub (squeeze ivt) ivt_mean) as [d|]; [|done].
  cbn [mbind result_bind]. unfold restore_axes.
  repeat case_decide; by intros [= <- <- <-].
Qed.

Lemma broadcast_rev_prefix r r0 : broadcast_rev (r ++ r0) r = Some (r ++ r0).
Proof.
  induction r as [|d r IH]; [by destruct r0|].
  cbn. rewrite IH. cbn. by rewrite decide_True.
Qed.

(** A field of shape [(T, Y, X)] and a map of shape [(Y, X)] broadcast to the
    shape of the field. *)
Lemma broadcast_shapes_field_map T Y X :
  broadcast_shapes [T; Y; X] [Y; X] = Some [T; Y; X].
Proof.
  unfold broadcast_shapes.
  change (reverse [T; Y; X]) with ([X; Y] ++ [T]).
  change (reverse [Y; X]) with [X; Y].
  by rewrite broadcast_rev_prefix.
Qed.

Lemma item_level_axis {V} `{Inhabited V} (T Y X : nat) (d : list V) (t i j : nat) :
  item (NdArray [T; 1%nat; Y; X] d) [t; 0%nat; i; j] = item (NdArray [T; Y; X] d) [t; i; j].
Proof.
  unfold item. cbn [shape data]. f_equal. unfold ravel, nelems. cbn [foldr]. lia.
Qed.

Lemma filterData_250_cells ivt ivt_mean T Y X :
  shape (squeeze ivt) = [T; Y; X] → shape ivt_mean = [Y; X] →
  ∃ raw rec ano,
    filterData_250 ivt ivt_mean = Ok (raw, rec, ano) ∧
    data raw = data ivt ∧ rec = ano ∧ shape ano = shape raw ∧
    ∀ idx, in_bounds idx (shape raw) →
      item ano idx = item raw idx - item ivt_mean (bidx [Y; X] idx).
Proof.
  intros Hs Hm. unfold filterData_250, binop.
  assert (data (squeeze ivt) = data ivt) as Hd by done.
  destruct (squeeze ivt) as [s d] eqn:Hsq. cbn in Hs, Hd. subst s d. cbn [shape].
  set (d := data ivt).
  rewrite Hm, broadcast_shapes_field_map. cbn [mbind result_bind].
  unfold restore_axes. cbn [tabulate shape].
  rewrite decide_True by done.
  set (f := fun idx : list nat =>
    item (NdArray [T; Y; X] d) (bidx [T; Y; X] idx) - item ivt_mean (bidx [Y; X] idx)).
  assert (∀ idx, in_bounds idx [T; Y; X] →
    item (NdArray [T; Y; X] (f <$> indices [T; Y; X])) idx
    = item (NdArray [T; Y; X] d) idx - item ivt_mean (bidx [Y; X] idx)) as Hcell.
  { intros idx Hb. rewrite (item_tabulate [T; Y; X] f) by done.
    unfold f. by rewrite bidx_same. }
  case_decide as H4.
  - do 3 eexists. split; [done|]. split; [done|]. split; [done|].
    cbn [addExtraAxis shape data take drop app]. split; [done|].
    intros idx Hb.
    inversion Hb as [|t ? idx1 ? Ht Hb1]; subst.
    inversion Hb1 as [|z ? idx2 ? Hz Hb2]; subst.
    inversion Hb2 as [|i ? idx3 ? Hi Hb3]; subst.
    inversion Hb3 as [|j ? idx4 ? Hj Hb4]; subst.
    inversion Hb4; subst.
    assert (z = 0%nat) as -> by lia.
    change (addExtraAxis (tabulate [T; Y; X] f) 1)
      with (NdArray [T; 1%nat; Y; X] (f <$> indices [T; Y; X])).
    change (addExtraAxis (NdArray [T; Y; X] d) 1) with (NdArray [T; 1%nat; Y; X] d).
    rewrite !item_level_axis.
    change (bidx [Y; X] [t; 0%nat; i; j]) with (bidx [Y; X] [t; i; j]).
    apply Hcell. by repeat constructor.
  - do 3 eexists. split; [done|]. split; [done|]. split; [done|].
    cbn [shape]. split; [done|]. apply Hcell.
Qed.

(** C1 (amended).  On the morphological path [filterData] the background
    [ivt_rec] lies below the raw field at every grid point and the anomaly
    [ivt_ano] is raw minus background.  On the climatology path
    [filterData_250], the one [main] invokes, [ivt_rec] and [ivt_ano] are one
    and the same field, raw minus the climatological mean (the mean map
    broadcast over time): [ivt_rec] is a second copy of the anomaly there,
    not a background. *)
Theorem decomposition_background_anomaly
    (ivt ivt_mean : ndarray Z) (t y x : Z) (T Y X : nat) :
  shape (squeeze ivt) = [T; Y; X] → shape ivt_mean = [Y; X] →
  (∃ raw rec ano,
     filterData ivt [t; y; x] = Ok (raw, rec, ano) ∧
     data raw = data ivt ∧ shape rec = shape raw ∧ shape ano = shape raw ∧
     ∀ idx, in_bounds idx (shape raw) →
       item rec idx ≤ item raw idx ∧ item ano idx = item raw idx - item rec idx)
  ∧
  (∃ raw rec ano,
     main_decompose ivt ivt_mean = Ok (raw, rec, ano) ∧
     data raw = data ivt ∧ rec = ano ∧ shape ano = shape raw ∧
     ∀ idx, in_bounds idx (shape raw) →
       item ano idx = item raw idx - item ivt_mean (bidx [Y; X] idx)).
Proof.
  intros Hs Hm. split.
  - apply filterData_cells. unfold ndim. by rewrite Hs.
  - exact (filterData_250_cells ivt ivt_mean T Y X Hs Hm).
Qed.

Lemma decomposition_background_anomaly_witness :
  let ivt := NdArray [2; 2; 2]%nat [300; 310; 320; 330; 340; 900; 360; 370] in
  let ivt_mean := NdArray [2; 2]%nat [100; 100; 100; 100] in
  (∃ raw rec ano,
     filterData ivt [1; 1; 1] = Ok (raw, rec, ano) ∧
     data raw = data ivt ∧ shape rec = shape raw ∧ shape ano = shape raw ∧
     ∀ idx, in_bounds idx (shape raw) →
       item rec idx ≤ item raw idx ∧ item ano idx = item raw idx - item rec idx)
  ∧
  (∃ raw rec ano,
     main_decompose ivt ivt_mean = Ok (raw, rec, ano) ∧
     data raw = data ivt ∧ rec = ano ∧ shape ano = shape raw ∧
     ∀ idx, in_bounds idx (shape raw) →
       item ano idx = item raw idx - item ivt_mean (bidx [2; 2]%nat idx)).
Proof.
  intros ivt ivt_mean.
  apply (decomposition_background_anomaly ivt ivt_mean 1 1 1 2 2 2); reflexivity.
Defined.

(** C1 fails as stated on the path [main] invokes: with a raw value of 300
    and a climatological mean of 100, [ivt_rec] and [ivt_ano] both hold 200,
    so the anomaly is not raw minus [ivt_rec] (which would be 100). *)
Lemma decomposition_background_anomaly_counterexample :
  let ivt := full [2; 2; 2]%nat 300 in
  let ivt_mean := full [2; 2]%nat 100 in
  ∃ raw rec ano,
    main_decompose ivt ivt_mean = Ok (raw, rec, ano) ∧
    in_bounds [0; 0; 0]%nat (shape raw) ∧
    item raw [0; 0; 0]%nat = 300 ∧
    item rec [0; 0; 0]%nat = 200 ∧
    item ano [0; 0; 0]%nat = 200 ∧
    ¬ (item rec [0; 0; 0]%nat ≤ item raw [0; 0; 0]%nat ∧
       item ano [0; 0; 0]%nat = item raw [0; 0; 0]%nat - item rec [0; 0; 0]%nat).
Proof.
  intros ivt ivt_mean. do 3 eexists. split; [vm_compute; reflexivity|].
  split; [repeat constructor; lia|].
  split; [reflexivity|]. split; [reflexivity|]. split; [reflexivity|].
  vm_compute. intros [_ [=]].
Qed.

(** C2 (amended).  On the morphological path [filterData] the anomaly is
    non-negative at every grid point.  On the climatology path
    [filterData_250], the one [main] invokes, the anomaly is raw minus the
    climatological mean, which is non-negative exactly at the grid points
    where the raw value reaches the mean. *)
Theorem anomaly_sign
    (ivt ivt_mean : ndarray Z) (t y x : Z) (T Y X : nat) :
  shape (squeeze ivt) = [T; Y; X] → shape ivt_mean = [Y; X] →
  (∃ raw rec ano,
     filterData ivt [t; y; x] = Ok (raw, rec, ano) ∧
     data raw = data ivt ∧ shape ano = shape raw ∧
     ∀ idx, in_bounds idx (shape raw) → 0 ≤ item ano idx)
  ∧
  (∃ raw rec ano,
     main_decompose ivt ivt_mean = Ok (raw, rec, ano) ∧
     data raw = data ivt ∧ shape ano = shape raw ∧
     ∀ idx, in_bounds idx (shape raw) →
       (0 ≤ item ano idx ↔ item ivt_mean (bidx [Y; X] idx) ≤ item raw idx)).
Proof.
  intros Hs Hm. split.
  - destruct (filterData_cells ivt t y x) as (raw & rec & ano & Hf & Hd & _ & Hsa & Hc).
    { unfold ndim. by rewrite Hs. }
    exists raw, rec, ano. split_and!; [done..|].
    intros idx Hb. destruct (Hc idx Hb). lia.
  - destruct (filterData_250_cells ivt ivt_mean T Y X Hs Hm)
      as (raw & rec & ano & Hf & Hd & _ & Hsa & Hc).
    exists raw, rec, ano. split_and!; [done..|].
    intros idx Hb. rewrite (Hc idx Hb). lia.
Qed.

Lemma anomaly_sign_witness :
  let ivt := NdArray [2; 2; 2]%nat [300; 310; 320; 330; 340; 900; 360; 370] in
  let ivt_mean := NdArray [2; 2]%nat [100; 350; 100; 350] in
  (∃ raw rec ano,
     filterData ivt [1; 1; 1] = Ok (raw, rec, ano) ∧
     data raw = data ivt ∧ shape ano = shape raw ∧
     ∀ idx, in_bounds idx (shape raw) → 0 ≤ item ano idx)
  ∧
  (∃ raw rec ano,
     main_decompose ivt ivt_mean = Ok (raw, rec, ano) ∧
     data raw = data ivt ∧ shape ano = shape raw ∧
     ∀ idx, in_bounds idx (shape raw) →
       (0 ≤ item ano idx ↔ item ivt_mean (bidx [2; 2]%nat idx) ≤ item raw idx)).
Proof.
  intros ivt ivt_mean.
  apply (anomaly_sign ivt ivt_mean 1 1 1 2 2 2); reflexivity.
Defined.

(** C2 fails as stated on the path [main] invokes: where the raw value (100)
    is below the climatological mean (250) the anomaly is negative. *)
Lemma anomaly_sign_counterexample :
  let ivt := full [2; 2; 2]%nat 100 in
  let ivt_mean := full [2; 2]%nat 250 in
  ∃ raw rec ano,
    main_decompose ivt ivt_mean = Ok (raw, rec, ano) ∧
    in_bounds [0; 0; 0]%nat (shape raw) ∧
    item ano [0; 0; 0]%nat = -150 ∧
    ¬ (0 ≤ item ano [0; 0; 0]%nat).
Proof.
  intros ivt ivt_mean. do 3 eexists. split; [vm_compute; reflexivity|].
  split; [repeat constructor; lia|]. split; [reflexivity|].
  vm_compute. intros H. by apply H.
Qed.

(** C5.  For half-extents [(t, s, s)] the structuring element handed to the
    erosion is a boolean array over the offsets [-t..t] x [-s..s] x [-s..s];
    an offset belongs to it exactly when it satisfies the ellipsoid equation
    [(dt/t)^2 + (dy/s)^2 + (dx/s)^2 <= 1], except that the element is the full
    cube of that shape as soon as [t] reaches 10 or [s] reaches 6. *)
Theorem structuring_element_ellipsoid_or_cube (t s : Z) :
  0 < t → 0 < s →
  ∃ ele,
    structuring_element [t; s; s] = Ok ele ∧
    shape ele = [Z.to_nat (2 * t + 1); Z.to_nat (2 * s + 1); Z.to_nat (2 * s + 1)] ∧
    ∀ dt dy dx, - t ≤ dt ≤ t → - s ≤ dy ≤ s → - s ≤ dx ≤ s →
      (item ele [Z.to_nat (dt + t); Z.to_nat (dy + s); Z.to_nat (dx + s)] = true
       ↔ (10 ≤ t ∨ 6 ≤ s) ∨
         dt^2 * s^2 * s^2 + dy^2 * t^2 * s^2 + dx^2 * t^2 * s^2 ≤ t^2 * s^2 * s^2).
Proof.
  intros Ht Hs.
  assert (∀ dt dy dx, - t ≤ dt ≤ t → - s ≤ dy ≤ s → - s ≤ dx ≤ s →
    in_bounds [Z.to_nat (dt + t); Z.to_nat (dy + s); Z.to_nat (dx + s)]
      [Z.to_nat (2 * t + 1); Z.to_nat (2 * s + 1); Z.to_nat (2 * s + 1)]) as Hb.
  { intros. repeat constructor; lia. }
  assert (∀ dt dy dx, - t ≤ dt ≤ t → - s ≤ dy ≤ s → - s ≤ dx ≤ s →
    item (get3DEllipse t s s) [Z.to_nat (dt + t); Z.to_nat (dy + s); Z.to_nat (dx + s)] = true
    ↔ dt^2 * s^2 * s^2 + dy^2 * t^2 * s^2 + dx^2 * t^2 * s^2 ≤ t^2 * s^2 * s^2) as Hell.
  { intros dt dy dx Hdt Hdy Hdx. unfold get3DEllipse.
    rewrite item_tabulate by (by apply Hb).
    rewrite !Z2Nat.id by lia.
    replace (dt + t - t) with dt by lia. replace (dy + s - s) with dy by lia.
    replace (dx + s - s) with dx by lia.
    unfold in_ellipsoid. by rewrite bool_decide_eq_true. }
  unfold structuring_element. cbn [get3DEllipse_star mbind result_bind getitem lookup list_lookup].
  case_bool_decide as H10; [|case_bool_decide as H6].
  - eexists. split; [done|]. split; [done|]. intros dt dy dx Hdt Hdy Hdx.
    rewrite item_full by (by apply Hb). split; [intros _; left; by left|done].
  - eexists. split; [done|]. split; [done|]. intros dt dy dx Hdt Hdy Hdx.
    rewrite item_full by (by apply Hb). split; [intros _; left; by right|done].
  - eexists. split; [done|]. split; [done|]. intros dt dy dx Hdt Hdy Hdx.
    rewrite (Hell dt dy dx Hdt Hdy Hdx). split; [by right|].
    intros [[?|?]|?]; [lia|lia|done].
Qed.

Lemma structuring_element_ellipsoid_or_cube_witness :
  ∃ ele,
    structuring_element [4; 8; 8] = Ok ele ∧
    shape ele = [Z.to_nat (2 * 4 + 1); Z.to_nat (2 * 8 + 1); Z.to_nat (2 * 8 + 1)] ∧
    ∀ dt dy dx, - 4 ≤ dt ≤ 4 → - 8 ≤ dy ≤ 8 → - 8 ≤ dx ≤ 8 →
      (item ele [Z.to_nat (dt + 4); Z.to_nat (dy + 8); Z.to_nat (dx + 8)] = true
       ↔ (10 ≤ 4 ∨ 6 ≤ 8) ∨
         dt^2 * 8^2 * 8^2 + dy^2 * 4^2 * 8^2 + dx^2 * 4^2 * 8^2 ≤ 4^2 * 8^2 * 8^2).
Proof.
  apply (structuring_element_ellipsoid_or_cube 4 8); lia.
Defined.

End AnomalyFacts.

(** ** The IVT magnitude of [compute_ivt.py] *)

Section IvtFacts.
Import Np Ivt.

Lemma wf_tabulate {V} shp (f : list nat → V) : wf (tabulate shp f).
Proof. unfold wf, tabulate. cbn. by rewrite length_fmap, length_indices. Qed.

Lemma wf_unop {U V} (f : U → V) a : wf a → wf (unop f a).
Proof. unfold wf, unop. cbn. by rewrite length_fmap. Qed.

Lemma item_unop {U V} `{Inhabited U} `{Inhabited V} (f : U → V) a idx :
  wf a → in_bounds idx (shape a) → item (unop f a) idx = f (item a idx).
Proof.
  intros Hwf Hb. unfold item, unop. cbn [data shape].
  apply list_lookup_total_correct. rewrite list_lookup_fmap.
  rewrite list_lookup_lookup_total_lt; [done|].
  rewrite Hwf. by apply ravel_lt.
Qed.

Lemma ma_sqrt_sum_squares (u v : R) :
  ma_sqrt (u * u + v * v) = Some (sqrt (u * u + v * v)).
Proof. unfold ma_sqrt. destruct (Rlt_dec _ _) as [Hlt|]; [nra|done]. Qed.



End IvtFacts.

(** ** The detection run of [detect_ARs.py] *)

Section DetectFacts.
Import Np Detect.

Lemma angle_unbound (v1 v2 v3 v4 : pyval) :
  lookup_name
    (<["result_df" := v1]> (<["label" := v2]> (<["timett" := v3]>
       (<["tidx" := v4]> main_locals))))
    module_globals "angle"
  = Raise (NameError "angle").
Proof.
  unfold lookup_name.
  rewrite !lookup_insert_ne by done.
  assert (main_locals !! "angle"%string = None) as -> by (vm_compute; reflexivity).
  assert (module_globals !! "angle"%string = None) as -> by (vm_compute; reflexivity).
  done.
Qed.

(** The body of the loop, run with the names that [main] and the module
    bind: the record and the label are written, then [angle] is looked up. *)
Lemma save_step_unbound_angle (s : step) (st : outputs) :
  save_step module_globals main_locals s st
  = (Raise (NameError "angle"),
     {| csv := csv st ++ to_csv (result_df s) (tell_is_0 st);
        nc := nc st ++ [NcDims (shape (label s)); NcVar (label s) (Some "int"%string)] |}).
Proof.
  unfold save_step. cbn [saveNCVAR csv nc].
  rewrite angle_unbound. by rewrite <-app_assoc.
Qed.

(** C3 (code defect).  Whenever the generator yields at least one time step,
    the loop of [main] writes the record and the label of the first step and
    then stops with [NameError: angle] on line 261: no later step is saved. *)
Theorem save_steps_stops_at_first_step (s : step) (steps : list step) (st : outputs) :
  save_steps module_globals main_locals (s :: steps) st
  = (Raise (NameError "angle"),
     {| csv := csv st ++ to_csv (result_df s) (tell_is_0 st);
        nc := nc st ++ [NcDims (shape (label s)); NcVar (label s) (Some "int"%string)] |}).
Proof.
  cbn [save_steps]. by rewrite save_step_unbound_angle.
Qed.

(** The same on a run of two time steps: the second (label, record) pair is
    never written. *)
Example two_steps_one_pair :
  let lab := full [2; 2] 0%Z in
  let df t := {| columns := ["id"; "time"]%string; rows := [["1"; t]%string] |} in
  let s1 := {| tidx := 0; timett := 0; label := lab; result_df := df "00"%string |} in
  let s2 := {| tidx := 1; timett := 6; label := lab; result_df := df "06"%string |} in
  save_steps module_globals main_locals [s1; s2] {| csv := []; nc := [] |}
  = (Raise (NameError "angle"),
     {| csv := [Header ["id"; "time"]%string; Row ["1"; "00"]%string];
        nc := [NcDims [2; 2]; NcVar lab (Some "int"%string)] |}).
Proof. vm_compute. reflexivity. Qed.

(** *** The header of the record file *)

Lemma count_headers_app ls1 ls2 :
  count_headers (ls1 ++ ls2) = count_headers ls1 + count_headers ls2.
Proof. unfold count_headers. by rewrite List.filter_app, length_app. Qed.

Lemma count_headers_rows (rs : list (list string)) : count_headers (Row <$> rs) = 0.
Proof. induction rs as [|r rs IH]; [done|]. apply IH. Qed.

Lemma count_headers_to_csv df (h : bool) :
  count_headers (to_csv df h) = if h then 1 else 0.
Proof.
  unfold to_csv. rewrite count_headers_app, count_headers_rows. by destruct h.
Qed.

Lemma save_step_csv globals locals s st :
  csv (save_step globals locals s st).2
  = csv st ++ to_csv (result_df s) (tell_is_0 st).
Proof.
  unfold save_step. cbn [saveNCVAR csv nc].
  destruct (lookup_name _ globals "angle") as [angle|]; [|done].
  destruct (saveNCVAR _ angle None) as [st1|] eqn:H1; [|done].
  assert (csv st1 = csv st ++ to_csv (result_df s) (tell_is_0 st)) as Hst1.
  { destruct angle; simplify_eq/=; done. }
  destruct (lookup_name _ globals "cross") as [cross|]; [|done].
  destruct (saveNCVAR st1 cross None) as [st2|] eqn:H2; [|done].
  destruct cross; simplify_eq/=; done.
Qed.

Lemma tell_after_save_step globals locals s st :
  tell_is_0 (save_step globals locals s st).2 = false.
Proof.
  unfold tell_is_0 at 1. rewrite save_step_csv. apply bool_decide_eq_false.
  unfold tell_is_0, to_csv. case_bool_decide as Hc.
  - rewrite Hc. done.
  - intros [? _]%app_eq_nil. done.
Qed.

(** C9.  A run adds a header line to the record file exactly when the file
    is empty at its first write: each write puts the header in front of its
    rows if and only if the file is empty at that moment, and no later write
    finds it empty.  A record file that starts out empty therefore holds at
    most one header line. *)
Theorem record_file_header_once
    (globals locals : namespace) (steps : list step) (st : outputs) :
  count_headers (csv (save_steps globals locals steps st).2)
    = count_headers (csv st)
      + (if bool_decide (csv st = []) then Nat.min 1 (length steps) else 0)
  ∧ count_headers
      (csv (save_steps globals locals steps {| csv := []; nc := nc st |}).2) ≤ 1
  ∧ Forall (fun s =>
      csv (save_step globals locals s st).2
      = csv st
        ++ (if bool_decide (csv st = []) then [Header (columns (result_df s))] else [])
        ++ (Row <$> rows (result_df s))) steps.
Proof.
  assert (∀ steps locals st,
    count_headers (csv (save_steps globals locals steps st).2)
    = count_headers (csv st)
      + (if tell_is_0 st then Nat.min 1 (length steps) else 0)) as Hcount.
  { clear. induction steps as [|s steps IH]; intros locals st.
    - cbn. destruct (tell_is_0 st); lia.
    - cbn [save_steps length].
      pose proof (save_step_csv globals locals s st) as Hcsv.
      pose proof (tell_after_save_step globals locals s st) as Htell.
      destruct (save_step globals locals s st) as [[locals'|e] st1]; cbn [snd] in *.
      + rewrite IH, Htell, Hcsv, count_headers_app, count_headers_to_csv.
        destruct (tell_is_0 st); lia.
      + rewrite Hcsv, count_headers_app, count_headers_to_csv.
        destruct (tell_is_0 st); lia. }
  split; [apply Hcount|]. split.
  - rewrite Hcount. cbn. destruct steps; cbn; lia.
  - apply Forall_forall. intros s _. rewrite save_step_csv.
    unfold to_csv, tell_is_0. done.
Qed.

(** *** The shape check *)

Lemma pool_map_app task l1 l2 fs :
  pool_map task (l1 ++ l2) fs
  = let '(r1, fs1) := pool_map task l1 fs in
    let '(r2, fs2) := pool_map task l2 fs1 in
    (r1 ++ r2, fs2).
Proof.
  revert fs. induction l1 as [|f l1 IH]; intros fs.
  - cbn. by destruct (pool_map task l2 fs).
  - cbn. destruct (task fs f) as [r fs1]. rewrite IH.
    destruct (pool_map task l1 fs1) as [r1 fs2].
    by destruct (pool_map task l2 fs2).
Qed.

Lemma shape_check_raises {A B C} (qu : ndarray A) (qv : ndarray B) (ivt : ndarray C) :
  raises (shape_check qu qv ivt)
  ↔ (ndim qu ≠ 3 ∨ ndim qv ≠ 3) ∨ (shape qu ≠ shape qv ∨ shape ivt ≠ shape qu).
Proof.
  unfold shape_check. repeat case_decide; cbn; tauto.
Qed.

Lemma main_shape_error gen fs f ivt ivt_rec ivt_ano :
  fs !! f = Some (NcInput ivt ivt_rec ivt_ano) → ndim (squeeze ivt) ≠ 3 →
  main gen fs f = (Raise (Exception "<qu> and <qv> should be 3D data."), fs).
Proof.
  intros Hf H3. unfold main. rewrite Hf. unfold shape_check.
  rewrite decide_True; [done|]. left. done.
Qed.

(** With a 3-D field the check passes, and [main] ends normally or with the
    [NameError] of the loop. *)
Lemma main_well_formed gen fs f ivt ivt_rec ivt_ano :
  fs !! f = Some (NcInput ivt ivt_rec ivt_ano) → ndim (squeeze ivt) = 3 →
  (main gen fs f).1 = Ok tt ∨ (main gen fs f).1 = Raise (NameError "angle").
Proof.
  intros Hf H3. unfold main. rewrite Hf. unfold shape_check.
  rewrite decide_False by (unfold ndim in *; cbn [shape full]; tauto).
  rewrite decide_False by (cbn [shape full]; tauto).
  destruct (gen _ _ _ _ _) as [|s steps].
  - by left.
  - right. cbn [save_steps]. by rewrite save_step_unbound_angle.
Qed.

Lemma main_shape_error_iff gen fs f ivt ivt_rec ivt_ano :
  fs !! f = Some (NcInput ivt ivt_rec ivt_ano) →
  (main gen fs f).1 = Raise (Exception "<qu> and <qv> should be 3D data.")
  ↔ ndim (squeeze ivt) ≠ 3.
Proof.
  intros Hf. split.
  - intros Hr H3. destruct (main_well_formed gen fs f _ _ _ Hf H3); congruence.
  - intros H3. by rewrite (main_shape_error gen fs f _ _ _ Hf H3).
Qed.



End DetectFacts.

(** ** Tracks: [trace_ARs.py] *)

Section TrackFilterFacts.
Import Trace.
Local Open Scope Z_scope.

Lemma elem_of_filterTracks track_list min_duration min_nonrelax t :
  t ∈ filterTracks track_list min_duration min_nonrelax
  ↔ t ∈ track_list ∧ min_duration ≤ duration t ∧ min_nonrelax ≤ nonrelax_count t.
Proof. unfold filterTracks. rewrite list_elem_of_filter. tauto. Qed.

(** C4.  A track is kept exactly when it is in the list, its duration (time
    of the last member minus time of the first, in hours) is at least
    [min_duration] and it has at least [min_nonrelax] non-relaxed members.
    The bound on the duration is inclusive: with enough non-relaxed members
    a track of duration [min_duration] is kept, one of duration
    [min_duration - 1] is dropped.  [main] filters with 24 hours and 2
    members, and the tracks kept stay in their order. *)
Theorem track_filter_keeps_iff
    (track_list : list Track) (min_duration min_nonrelax : Z) (t : Track) :
  t ∈ track_list → min_nonrelax ≤ nonrelax_count t →
  (∀ t', t' ∈ filterTracks track_list min_duration min_nonrelax
         ↔ t' ∈ track_list ∧ min_duration ≤ duration t' ∧ min_nonrelax ≤ nonrelax_count t')
  ∧ (duration t = min_duration → t ∈ filterTracks track_list min_duration min_nonrelax)
  ∧ (duration t = min_duration - 1 → t ∉ filterTracks track_list min_duration min_nonrelax)
  ∧ (∀ t', t' ∈ filter_stage track_list
           ↔ t' ∈ track_list ∧ 24 ≤ duration t' ∧ 2 ≤ nonrelax_count t')
  ∧ filterTracks track_list min_duration min_nonrelax `sublist_of` track_list.
Proof.
  intros Hin Hnr. split_and!.
  - intros t'. apply elem_of_filterTracks.
  - intros Hd. apply elem_of_filterTracks. split_and!; [done|lia|done].
  - intros Hd. rewrite elem_of_filterTracks. lia.
  - intros t'. apply elem_of_filterTracks.
  - apply sublist_filter.
Qed.

Lemma track_filter_keeps_iff_witness :
  let r h x := {| ar_id := 1; ar_time := h; is_relaxed := x; cells := [(0, 0)] |} in
  let t24 := [r 0 false; r 6 true; r 12 true; r 18 false; r 24 true] in
  let t23 := [r 1 false; r 6 true; r 12 true; r 18 false; r 24 true] in
  t24 ∈ filterTracks [t24; t23] 24 2 ∧ t23 ∉ filterTracks [t24; t23] 24 2.
Proof.
  intros r t24 t23. split.
  - refine (proj1 (proj2 (track_filter_keeps_iff [t24; t23] 24 2 t24 _ _)) _);
      [apply list_elem_of_here | vm_compute; discriminate | reflexivity].
  - refine (proj1 (proj2 (proj2 (track_filter_keeps_iff [t24; t23] 24 2 t23 _ _))) _);
      [apply list_elem_of_further, list_elem_of_here | vm_compute; discriminate
      | reflexivity].
Defined.

End TrackFilterFacts.

Section TrackLinkerFacts.
Import Trace.
Local Open Scope Z_scope.

Lemma key_le_refl k : key_le k k.
Proof. unfold key_le. lia. Qed.

Lemma key_le_trans k1 k2 k3 : key_le k1 k2 → key_le k2 k3 → key_le k1 k3.
Proof. unfold key_le. lia. Qed.

Lemma key_le_total k1 k2 : key_le k1 k2 ∨ key_le k2 k1.
Proof. unfold key_le. lia. Qed.

Lemma key_le_antisym k1 k2 : key_le k1 k2 → key_le k2 k1 → k1 = k2.
Proof. destruct k1, k2. unfold key_le. cbn. intros ??. f_equal; lia. Qed.

Lemma best_is_best key cands b : best key cands = Some b → is_best key cands b.
Proof.
  revert b. induction cands as [|c cands IH]; intros b Hb; [done|].
  cbn in Hb. destruct (best key cands) as [b'|] eqn:Hb'.
  - destruct (IH b' eq_refl) as [Hin Hmin]. case_decide as Hle; simplify_eq.
    + split; [left|]. intros x [->|Hx]%elem_of_cons; [apply key_le_refl|].
      eapply key_le_trans; [done|]. by apply Hmin.
    + split; [by right|]. intros x [->|Hx]%elem_of_cons; [|by apply Hmin].
      by destruct (key_le_total (key b) (key c)).
  - simplify_eq. destruct cands as [|c' cands].
    + split; [left|]. intros x ->%list_elem_of_singleton. apply key_le_refl.
    + cbn in Hb'. destruct (best key cands); [case_decide|]; done.
Qed.

Lemma best_is_Some key cands c : c ∈ cands → is_Some (best key cands).
Proof.
  destruct cands as [|c' cands]; [by intros ?%elem_of_nil|]. intros _. cbn.
  destruct (best key cands); [case_decide|]; eauto.
Qed.

Lemma unique_id (records : list ARrecord) a b :
  NoDup (ar_id <$> records) → a ∈ records → b ∈ records → ar_id a = ar_id b → a = b.
Proof.
  induction records as [|r records IH]; [by intros _ ?%elem_of_nil|].
  rewrite fmap_cons, NoDup_cons, !elem_of_cons.
  intros [Hr Hnd] [->|Ha] [->|Hb] Hid; [done| | |by apply IH].
  - destruct Hr. rewrite Hid. by apply list_elem_of_fmap_2.
  - destruct Hr. rewrite <-Hid. by apply list_elem_of_fmap_2.
Qed.

(** The best of a list of records with distinct ids is unique, ties in the
    distance included. *)
Lemma is_best_unique (f : ARrecord → Z) records cands b b' :
  NoDup (ar_id <$> records) → cands ⊆ records →
  is_best (fun c => (f c, ar_id c)) cands b →
  is_best (fun c => (f c, ar_id c)) cands b' → b = b'.
Proof.
  intros Hnd Hsub [Hb Hmin] [Hb' Hmin'].
  apply (unique_id records); [done|by apply Hsub|by apply Hsub|].
  pose proof (key_le_antisym _ _ (Hmin _ Hb') (Hmin' _ Hb)) as Heq.
  by simplify_eq/=.
Qed.

Lemma best_iff_is_best (f : ARrecord → Z) records cands b :
  NoDup (ar_id <$> records) → cands ⊆ records →
  best (fun c => (f c, ar_id c)) cands = Some b
  ↔ is_best (fun c => (f c, ar_id c)) cands b.
Proof.
  intros Hnd Hsub. split; [apply best_is_best|]. intros Hb.
  destruct (best_is_Some (fun c => (f c, ar_id c)) cands b) as [b0 Hb0]; [apply Hb|].
  rewrite Hb0. f_equal. apply best_is_best in Hb0.
  by eapply is_best_unique.
Qed.

Section Linkage.
Variable dist : Z * Z → Z * Z → Z.
Variables time_gap_allow max_dist_allow : Z.
Variable records : list ARrecord.
Hypothesis distinct_ids : NoDup (ar_id <$> records).

Local Abbreviation successors := (Trace.successors dist time_gap_allow max_dist_allow records).
Local Abbreviation predecessors := (Trace.predecessors dist time_gap_allow max_dist_allow records).
Local Abbreviation link := (Trace.link dist time_gap_allow max_dist_allow records).
Local Abbreviation is_link := (Trace.is_link dist time_gap_allow max_dist_allow records).
Local Abbreviation is_linkage := (Trace.is_linkage dist time_gap_allow max_dist_allow records).

Lemma successors_subseteq a : successors a ⊆ records.
Proof. intros b. unfold Trace.successors. rewrite list_elem_of_filter. tauto. Qed.

Lemma predecessors_subseteq b : predecessors b ⊆ records.
Proof. intros a. unfold Trace.predecessors. rewrite list_elem_of_filter. tauto. Qed.

Lemma link_iff_is_link a b : link a = Some b ↔ is_link a b.
Proof using distinct_ids.
  unfold Trace.link, Trace.is_link, best_successor, best_predecessor.
  rewrite <-(best_iff_is_best (fun c => hausdorff dist a c) records)
    by first [done | apply successors_subseteq].
  rewrite <-(best_iff_is_best (fun c => hausdorff dist c b) records)
    by first [done | apply predecessors_subseteq].
  destruct (best _ (Trace.successors _ _ _ _ a)) as [b0|];
    [|split; [done|by intros [? _]]].
  case_decide as Hp.
  - split; [intros [= ->]; by split|by intros [? _]].
  - split; [done|]. intros [[= ->] Hp']. by destruct Hp.
Qed.

Lemma is_link_functional a b b' : is_link a b → is_link a b' → b = b'.
Proof using distinct_ids.
  rewrite <-!link_iff_is_link. congruence.
Qed.

Lemma is_link_in_records a b : is_link a b → b ∈ records.
Proof. intros [[Hb _] _]. by apply successors_subseteq in Hb. Qed.

Lemma linkage_agree next1 next2 a :
  is_linkage next1 → is_linkage next2 → a ∈ records → next1 a = next2 a.
Proof.
  intros H1 H2 Ha. destruct (next1 a) as [b|] eqn:Hn1.
  - symmetry. by apply H2, H1.
  - destruct (next2 a) as [b|] eqn:Hn2; [|done].
    apply H2, H1 in Hn2; [congruence|done|done].
Qed.

Lemma chain_agree next1 next2 fuel a :
  is_linkage next1 → is_linkage next2 → a ∈ records →
  chain next1 fuel a = chain next2 fuel a.
Proof.
  intros H1 H2. revert a. induction fuel as [|fuel IH]; intros a Ha; [done|].
  cbn. rewrite <-(linkage_agree next1 next2 a) by done.
  destruct (next1 a) as [b|] eqn:Hn; [|done]. f_equal. apply IH.
  eapply is_link_in_records. by apply H1.
Qed.

Lemma tracks_agree next1 next2 :
  is_linkage next1 → is_linkage next2 →
  tracks_of records next1 = tracks_of records next2.
Proof.
  intros H1 H2. unfold tracks_of.
  assert (filter (fun b => Forall (fun a => next1 a ≠ Some b) records) records
          = filter (fun b => Forall (fun a => next2 a ≠ Some b) records) records) as ->.
  { apply list_filter_iff. intros b. rewrite !Forall_forall.
    split; intros H a Ha.
    - rewrite <-(linkage_agree next1 next2 a) by done. by apply H.
    - rewrite (linkage_agree next1 next2 a) by done. by apply H. }
  apply list_fmap_ext. intros i b Hb. apply chain_agree; [done|done|].
  apply list_elem_of_lookup_2 in Hb. by apply list_elem_of_filter in Hb as [_ ?].
Qed.


End Linkage.


(** A tie: the records 2 and 3 are both 200 km away from record 1, six hours
    later; record 1 is continued by the one with the smaller id. *)
Example tie_broken_by_id :
  let dist := fun p q : Z * Z => 100 * (Z.abs (p.1 - q.1) + Z.abs (p.2 - q.2)) in
  let r i h c := {| ar_id := i; ar_time := h; is_relaxed := false; cells := [c] |} in
  let records := [r 1 0 (40, 10); r 2 6 (40, 12); r 3 6 (40, 8)] in
  track_stage dist records
  = [[r 1 0 (40, 10); r 2 6 (40, 12)]; [r 3 6 (40, 8)]].
Proof. vm_compute. reflexivity. Qed.

End TrackLinkerFacts.

(** ** The skip lists of the batch drivers *)

Section BatchFacts.

Lemma elem_of_pending existing expected files f :
  f ∈ Py.pending existing expected files ↔ f ∈ files ∧ expected f ∉ existing.
Proof. unfold Py.pending. rewrite list_elem_of_filter. tauto. Qed.

Lemma elem_of_sort l f : f ∈ Py.sort l ↔ f ∈ l.
Proof. unfold Py.sort. by rewrite merge_sort_Permutation. Qed.

(** [s[-n:] == s[-n:-k] + s[-k:]] when [s] ends with the [k] characters
    [suf] and [k <= n]. *)
Lemma slice_suffix {A} (s0 suf : list A) (n : nat) :
  0 < length suf ≤ n →
  Py.slice (s0 ++ suf) (Some (- Z.of_nat n)%Z) None
  = Py.slice (s0 ++ suf) (Some (- Z.of_nat n)%Z) (Some (- Z.of_nat (length suf))%Z) ++ suf.
Proof.
  intros Hn. unfold Py.slice, Py.clamp. cbn [from_option].
  rewrite !decide_True by lia. rewrite length_app.
  set (lo := Z.to_nat (Z.of_nat (length s0 + length suf) + - Z.of_nat n)).
  replace (Z.to_nat (Z.of_nat (length s0 + length suf) + - Z.of_nat (length suf)))
    with (length s0) by lia.
  assert (lo ≤ length s0) as Hlo by lia.
  rewrite drop_app_le by done.
  rewrite take_ge by (rewrite length_app, length_drop; lia).
  f_equal. rewrite take_app_le by (rewrite length_drop; lia).
  rewrite take_ge; [done|]. rewrite length_drop. lia.
Qed.

Lemma trace_expected_is_output pre f :
  Py.glob_match pre (Py.s2l "00.csv") f →
  Trace.expected_output f = Trace.main_output f.
Proof.
  intros (_ & [k Hk] & _).
  assert (∃ s0, f = s0 ++ Py.s2l ".csv") as [s0 ->].
  { exists (take (length pre) f ++ k ++ Py.s2l "00").
    rewrite <-(take_drop (length pre) f) at 1. rewrite Hk.
    by rewrite <-!app_assoc. }
  unfold Trace.expected_output, Trace.main_output. do 2 f_equal.
  apply (slice_suffix s0 (Py.s2l ".csv") 18). cbn. lia.
Qed.

Lemma anomaly_expected_is_output f :
  f ∈ Anomaly.IVT_FILE → Anomaly.expected_output f = Anomaly.main_output f.
Proof.
  unfold Anomaly.IVT_FILE. rewrite !elem_of_cons, elem_of_nil.
  intros [->|[->|[]]]; vm_compute; reflexivity.
Qed.

Lemma elem_of_trace_filelist existing f :
  f ∈ Trace.filelist existing
  ↔ f ∈ existing ∧
    Py.glob_match
      (Py.s2l "/home/jingzhao/wangbp/era5/AR_TEST/THR/arinfo_250/ar_records_")
      (Py.s2l "00.csv") f.
Proof.
  unfold Trace.filelist, Py.glob.
  rewrite elem_of_sort, list_elem_of_filter, elem_of_elements. tauto.
Qed.

(** The track files land in another directory than the record files: no
    output of [main] is picked up as an input. *)
Lemma trace_output_not_input g :
  ¬ Py.glob_match
      (Py.s2l "/home/jingzhao/wangbp/era5/AR_TEST/THR/arinfo_250/ar_records_")
      (Py.s2l "00.csv") (Trace.main_output g).
Proof.
  intros ([k Hk] & _). apply (f_equal (take 40)) in Hk.
  vm_compute in Hk. discriminate.
Qed.

Lemma trace_rerun_empty existing : Trace.filename (Trace.after_batch existing) = [].
Proof.
  apply elem_of_nil_inv. intros f. unfold Trace.filename at 1.
  rewrite elem_of_pending, elem_of_trace_filelist.
  intros [[Hin Hm] Hout]. rewrite (trace_expected_is_output _ _ Hm) in Hout.
  unfold Trace.after_batch in Hin, Hout.
  rewrite elem_of_union, elem_of_list_to_set, list_elem_of_fmap in Hin, Hout.
  destruct Hin as [Hin|(g & -> & _)]; [|by apply (trace_output_not_input g)].
  destruct (decide (Trace.main_output f ∈ existing)) as [He|He]; [by apply Hout; left|].
  apply Hout. right. exists f. split; [done|].
  unfold Trace.filename. rewrite elem_of_pending, elem_of_trace_filelist.
  by rewrite (trace_expected_is_output _ _ Hm).
Qed.

Lemma anomaly_rerun_empty existing : Anomaly.filename (Anomaly.after_batch existing) = [].
Proof.
  apply elem_of_nil_inv. intros f. unfold Anomaly.filename at 1.
  rewrite elem_of_pending. intros [Hf Hout].
  rewrite (anomaly_expected_is_output f Hf) in Hout.
  unfold Anomaly.after_batch in Hout.
  rewrite elem_of_union, elem_of_list_to_set, list_elem_of_fmap in Hout.
  destruct (decide (Anomaly.main_output f ∈ existing)) as [He|He]; [by apply Hout; left|].
  apply Hout. right. exists f. split; [done|].
  unfold Anomaly.filename. rewrite elem_of_pending.
  by rewrite (anomaly_expected_is_output f Hf).
Qed.

(** C10.  Each of the two batch drivers queues an input exactly when it is
    one of its inputs and the file that [main] would write for it is not on
    disk: an input whose output exists is left out, every other input is
    queued, and no queued input has an output that a run could overwrite.
    Once every queued task has written its file, a rerun queues nothing. *)
Theorem batch_skips_existing_outputs (existing : Py.disk) (f : Py.str) :
  (f ∈ Trace.filename existing
   ↔ f ∈ Trace.filelist existing ∧ Trace.main_output f ∉ existing)
  ∧ (f ∈ Anomaly.filename existing
     ↔ f ∈ Anomaly.IVT_FILE ∧ Anomaly.main_output f ∉ existing)
  ∧ Trace.filename (Trace.after_batch existing) = []
  ∧ Anomaly.filename (Anomaly.after_batch existing) = [].
Proof.
  split_and!.
  - unfold Trace.filename. rewrite elem_of_pending.
    split; intros [Hf Hout]; (split; [done|]);
      pose proof Hf as Hm; apply elem_of_trace_filelist in Hm as [_ Hm];
      apply trace_expected_is_output in Hm; congruence.
  - unfold Anomaly.filename. rewrite elem_of_pending.
    split; intros [Hf Hout]; (split; [done|]);
      pose proof (anomaly_expected_is_output f Hf); congruence.
  - apply trace_rerun_empty.
  - apply anomaly_rerun_empty.
Qed.

End BatchFacts.

(* ===================================================================== *)
(** * Part III: further properties of the scripts                         *)
(* ===================================================================== *)

(** ** [shift_lon_varid] of [compute_ivt-anomaly.py] *)

Section ShiftLonFacts.
Import Np NpAxis Anomaly.

Lemma list_index_lt {A} `{EqDecision A} (x : A) l k :
  list_index x l = Ok k → l !! k = Some x ∧ k < length l.
Proof.
  revert k. induction l as [|y l IH]; intros k; [done|]. cbn.
  case_decide as Hy; [intros [= <-]; subst; cbn; split; [done|lia]|].
  destruct (list_index x l) as [i|]; [|done]. cbn. intros [= <-].
  destruct (IH i eq_refl). cbn. split; [done|lia].
Qed.

Lemma list_index_not_elem_of {A} `{EqDecision A} (x : A) l :
  x ∉ l → list_index x l = Raise ValueError.
Proof.
  induction l as [|y l IH]; [done|]. rewrite not_elem_of_cons. intros [Hne Hl].
  cbn. rewrite decide_False by done. by rewrite IH.
Qed.

Lemma list_index_elem_of {A} `{EqDecision A} (x : A) l :
  x ∈ l → ∃ k, list_index x l = Ok k.
Proof.
  induction l as [|y l IH]; [by intros ?%elem_of_nil|]. cbn.
  case_decide; [by eauto|]. rewrite elem_of_cons. intros [->|Hl]; [done|].
  destruct (IH Hl) as [k ->]. by eauto.
Qed.

Lemma in_bounds_alter1 (f : nat → nat) idx shp d' :
  in_bounds idx shp →
  (∀ j, idx !! 1 = Some j → f j < d') →
  in_bounds (alter f 1 idx) (<[1 := d']> shp).
Proof.
  intros Hb Hf. rewrite (list_insert_alter shp).
  apply Forall2_alter; [done|]. intros j d Hj _ _. by apply Hf.
Qed.

Lemma in_bounds_lookup idx shp i d :
  in_bounds idx shp → shp !! i = Some d → ∃ j, idx !! i = Some j ∧ j < d.
Proof. intros Hb Hd. by eapply Forall2_lookup_r. Qed.

Lemma in_bounds_insert1 idx shp d' j :
  in_bounds idx shp → idx !! 1 = Some j → j < d' → in_bounds idx (<[1 := d']> shp).
Proof.
  intros Hb Hj Hlt. rewrite <-(list_alter_id (fun x : nat => x) idx 1) by done.
  apply in_bounds_alter1; [done|]. intros j' Hj'. by simplify_eq/=.
Qed.

Lemma shift_lon_varid_cells {V A} `{Inhabited V} `{EqDecision A}
    (varid : ndarray V) (lon : list A) (SHIFT_LON : A) (k : nat) :
  shape varid !! 1 = Some (length lon) →
  list_index SHIFT_LON lon = Ok k →
  ∃ varid_new,
    shift_lon_varid varid lon SHIFT_LON = Ok varid_new ∧
    shape varid_new = shape varid ∧
    ∀ idx, in_bounds idx (shape varid) →
      item varid_new idx
      = item varid (alter (fun j => (j + k) `mod` length lon) 1 idx).
Proof.
  intros Hn Hk. set (n := length lon) in *.
  destruct (list_index_lt _ _ _ Hk) as [_ Hkn]. fold n in Hkn.
  unfold shift_lon_varid. rewrite Hk. cbn [mbind result_bind].
  unfold slice_axis1. rewrite Hn. cbn [mbind result_bind from_option].
  unfold Py.clamp. rewrite !decide_False by lia.
  rewrite Nat2Z.id, (Nat.min_l k n) by lia. rewrite Nat.sub_0_r.
  unfold concatenate_axis1. cbn [shape tabulate].
  rewrite !list_lookup_insert_eq by (by eapply lookup_lt_Some).
  rewrite !list_insert_insert_eq. rewrite decide_True by done.
  replace (n - k + k) with n by lia. rewrite (list_insert_id _ _ _ Hn).
  eexists. split; [done|]. split; [done|]. intros idx Hb.
  rewrite item_tabulate by done.
  destruct (in_bounds_lookup _ _ _ _ Hb Hn) as (j & Hj & Hjn).
  rewrite (list_lookup_total_correct _ _ _ Hj).
  case_decide as Hlt.
  - rewrite (item_tabulate (<[1:=n - k]> (shape varid)))
      by (by eapply in_bounds_insert1).
    f_equal. apply list_alter_ext; [|done]. intros j' Hj'. simplify_eq.
    by rewrite Nat.mod_small by lia.
  - rewrite (item_tabulate (<[1:=k]> (shape varid))).
    + f_equal. rewrite list_alter_alter_eq.
      apply list_alter_ext; [|done]. intros j' Hj'. simplify_eq. cbn.
      replace (j + k) with (j - (n - k) + 1 * n) by lia.
      rewrite Nat.Div0.mod_add. rewrite Nat.mod_small by lia. lia.
    + apply in_bounds_alter1; [done|]. intros j' Hj'. simplify_eq. lia.
Qed.

(** X1.  With [k = lon.index(SHIFT_LON)] and one longitude per column, the
    shifted array has the shape of [varid], and its column [j] is column
    [(j + k) mod n] of [varid]: the columns are rotated so that the column of
    [SHIFT_LON] comes first; all other axes are left alone. *)
Theorem shift_lon_varid_rotates {V A} `{Inhabited V} `{EqDecision A}
    (varid : ndarray V) (lon : list A) (SHIFT_LON : A) (k : nat) :
  shape varid !! 1 = Some (length lon) →
  list_index SHIFT_LON lon = Ok k →
  ∃ varid_new,
    shift_lon_varid varid lon SHIFT_LON = Ok varid_new ∧
    shape varid_new = shape varid ∧
    ∀ idx, in_bounds idx (shape varid) →
      item varid_new idx
      = item varid (alter (fun j => (j + k) `mod` length lon) 1 idx).
Proof. apply shift_lon_varid_cells. Qed.

Lemma shift_lon_varid_rotates_witness :
  let varid := NdArray [2; 4] [1; 2; 3; 4; 5; 6; 7; 8]%Z in
  let lon := [0; 90; 180; 270]%Z in
  ∃ varid_new,
    shift_lon_varid varid lon 180%Z = Ok varid_new ∧
    shape varid_new = shape varid ∧
    ∀ idx, in_bounds idx (shape varid) →
      item varid_new idx
      = item varid (alter (fun j => (j + 2) `mod` length lon) 1 idx).
Proof.
  intros varid lon.
  apply (shift_lon_varid_rotates varid lon 180%Z 2); reflexivity.
Defined.

(** X2.  A [SHIFT_LON] that is not one of the longitudes stops the function
    with [ValueError], whatever the array; with [SHIFT_LON] among the
    longitudes, an array without a second axis stops it with [IndexError]. *)
Theorem shift_lon_varid_errors {V A} `{Inhabited V} `{EqDecision A}
    (varid : ndarray V) (lon : list A) (SHIFT_LON : A) :
  (SHIFT_LON ∉ lon → shift_lon_varid varid lon SHIFT_LON = Raise ValueError)
  ∧ (SHIFT_LON ∈ lon → ndim varid < 2 →
     shift_lon_varid varid lon SHIFT_LON = Raise IndexError).
Proof.
  split.
  - intros Hs. unfold shift_lon_varid. by rewrite list_index_not_elem_of.
  - intros Hs Hd. unfold shift_lon_varid.
    destruct (list_index_elem_of _ _ Hs) as [k ->]. cbn [mbind result_bind].
    unfold slice_axis1. rewrite (lookup_ge_None_2 (shape varid) 1); [done|].
    unfold ndim in Hd. lia.
Qed.

Lemma shift_lon_varid_errors_witness :
  shift_lon_varid (NdArray [2; 2] [1; 2; 3; 4]%Z) [0; 180]%Z 90%Z = Raise ValueError
  ∧ shift_lon_varid (NdArray [4] [1; 2; 3; 4]%Z) [0; 90; 180; 270]%Z 90%Z
    = Raise IndexError.
Proof.
  split.
  - apply (proj1 (shift_lon_varid_errors _ _ _)). vm_compute.
    intros H. repeat (apply elem_of_cons in H as [H|H]; [discriminate|]).
    by apply elem_of_nil in H.
  - apply (proj2 (shift_lon_varid_errors _ _ _)).
    + do 1 apply list_elem_of_further. apply list_elem_of_here.
    + vm_compute. lia.
Defined.

Lemma list_index_app_r {A} `{EqDecision A} (x : A) l1 l2 k :
  x ∉ l1 → list_index x l2 = Ok k → list_index x (l1 ++ l2) = Ok (length l1 + k).
Proof.
  intros Hx Hk. induction l1 as [|y l1 IH]; [done|].
  apply not_elem_of_cons in Hx as [Hne Hx]. cbn.
  rewrite decide_False by done. by rewrite IH.
Qed.

(** The position of the first longitude among the rotated longitudes. *)
Lemma list_index_rotated {A} `{EqDecision A} (lon : list A) l0 k :
  NoDup lon → lon !! 0 = Some l0 → k < length lon →
  list_index l0 (drop k lon ++ take k lon) = Ok ((length lon - k) `mod` length lon).
Proof.
  intros Hnd H0 Hk. destruct k as [|k].
  - rewrite drop_0, Nat.sub_0_r, Nat.Div0.mod_same.
    destruct lon as [|y lon]; simplify_eq/=. by rewrite decide_True.
  - rewrite Nat.mod_small by lia.
    rewrite <-(length_drop lon (S k)), <-(Nat.add_0_r (length (drop (S k) lon))).
    apply list_index_app_r.
    + intros Hin. apply list_elem_of_lookup in Hin as [i Hi].
      rewrite lookup_drop in Hi.
      by pose proof (NoDup_lookup _ _ _ _ Hnd H0 Hi).
    + destruct lon as [|y lon]; simplify_eq/=. by rewrite decide_True.
Qed.

(** X3.  The shift can be undone: with distinct longitudes, shifting the
    shifted array back to the first longitude of the original axis (the
    longitudes being rotated along with the columns) returns every cell of
    the original array. *)
Theorem shift_lon_varid_round_trip {V A} `{Inhabited V} `{EqDecision A}
    (varid : ndarray V) (lon : list A) (SHIFT_LON first_lon : A) (k : nat) :
  NoDup lon →
  shape varid !! 1 = Some (length lon) →
  lon !! 0 = Some first_lon →
  list_index SHIFT_LON lon = Ok k →
  ∃ shifted back,
    shift_lon_varid varid lon SHIFT_LON = Ok shifted ∧
    shift_lon_varid shifted (drop k lon ++ take k lon) first_lon = Ok back ∧
    shape back = shape varid ∧
    ∀ idx, in_bounds idx (shape varid) → item back idx = item varid idx.
Proof.
  intros Hnd Hn H0 Hk. set (n := length lon) in *.
  destruct (list_index_lt _ _ _ Hk) as [_ Hkn]. fold n in Hkn.
  destruct (shift_lon_varid_cells varid lon SHIFT_LON k Hn Hk)
    as (shifted & Hshift & Hs1 & Hc1).
  assert (length (drop k lon ++ take k lon) = n) as Hlen.
  { rewrite length_app, length_drop, length_take. lia. }
  destruct (shift_lon_varid_cells shifted (drop k lon ++ take k lon) first_lon
              ((n - k) `mod` n)) as (back & Hback & Hs2 & Hc2).
  { by rewrite Hs1, Hlen. }
  { by apply list_index_rotated. }
  exists shifted, back. split; [done|]. split; [done|].
  split; [congruence|]. intros idx Hb.
  rewrite Hc2 by (by rewrite Hs1). rewrite Hlen. fold n in Hc1.
  destruct (in_bounds_lookup _ _ _ _ Hb Hn) as (j & Hj & Hjn).
  rewrite Hc1.
  - rewrite list_alter_alter_eq. rewrite <-(list_alter_id (fun x : nat => x) idx 1) at 2 by done.
    f_equal. apply list_alter_ext; [|done]. intros j' Hj'.
    assert (j' = j) as -> by congruence. cbn.
    rewrite Nat.Div0.add_mod_idemp_l.
    destruct (decide (k = 0)) as [->|Hk0].
    + rewrite Nat.sub_0_r, Nat.Div0.mod_same, Nat.add_0_r, Nat.add_0_r.
      by apply Nat.mod_small.
    + rewrite (Nat.mod_small (n - k)) by lia.
      replace (j + (n - k) + k) with (j + 1 * n) by lia.
      rewrite Nat.Div0.mod_add. by apply Nat.mod_small.
  - rewrite <-(list_insert_id _ _ _ Hn). apply in_bounds_alter1; [done|].
    intros j' Hj'. apply Nat.mod_upper_bound. lia.
Qed.

Lemma shift_lon_varid_round_trip_witness :
  let varid := NdArray [2; 4] [1; 2; 3; 4; 5; 6; 7; 8]%Z in
  let lon := [0; 90; 180; 270]%Z in
  ∃ shifted back,
    shift_lon_varid varid lon 180%Z = Ok shifted ∧
    shift_lon_varid shifted (drop 2 lon ++ take 2 lon) 0%Z = Ok back ∧
    shape back = shape varid ∧
    ∀ idx, in_bounds idx (shape varid) → item back idx = item varid idx.
Proof.
  intros varid lon.
  apply (shift_lon_varid_round_trip varid lon 180%Z 0%Z 2);
    [apply (bool_decide_unpack _); vm_compute; exact I | reflexivity..].
Defined.

End ShiftLonFacts.

(** ** The level axis in [filterData] and [filterData_250] *)

Section LevelAxisFacts.
Import Np Anomaly.

Lemma restore_axes_shape ndim0 ivt ivtrec ivtano raw rec ano :
  restore_axes ndim0 ivt ivtrec ivtano = Ok (raw, rec, ano) →
  shape rec = shape raw ∧ shape ano = shape raw ∧
  data raw = data ivt ∧
  shape raw = (if decide (ndim0 = 4)
               then take 1 (shape ivt) ++ 1 :: drop 1 (shape ivt)
               else shape ivt).
Proof.
  unfold restore_axes. case_decide as Hs; [|done]. destruct Hs as [Hr Ha].
  case_decide; intros [= <- <- <-]; cbn; by rewrite ?Hr, ?Ha.
Qed.

Lemma decomposition_shape ivt kernel ivt_mean raw rec ano :
  filterData ivt kernel = Ok (raw, rec, ano) ∨
  filterData_250 ivt ivt_mean = Ok (raw, rec, ano) →
  shape rec = shape raw ∧ shape ano = shape raw ∧
  data raw = data ivt ∧
  shape raw = (if decide (ndim ivt = 4)
               then take 1 (shape (squeeze ivt)) ++ 1 :: drop 1 (shape (squeeze ivt))
               else shape (squeeze ivt)).
Proof.
  intros [Hf|Hf].
  - unfold filterData in Hf.
    destruct (structuring_element kernel) as [ele|]; [|done]. cbn in Hf.
    destruct (erosion (squeeze ivt) ele) as [lm|]; [|done]. cbn in Hf.
    destruct (reconstruction lm (squeeze ivt)) as [r|]; [|done].
    cbn [mbind result_bind] in Hf.
    destruct (binop Z.sub (squeeze ivt) r) as [a|]; [|done].
    cbn [mbind result_bind] in Hf.
    by apply restore_axes_shape in Hf.
  - unfold filterData_250 in Hf.
    destruct (binop Z.sub (squeeze ivt) ivt_mean) as [a|]; [|done].
    cbn [mbind result_bind] in Hf.
    by apply restore_axes_shape in Hf.
Qed.



End LevelAxisFacts.

(** ** File names along the pipeline *)

Section PathFacts.

Lemma path_join_rel (d name : Py.str) :
  last d = Some "/"%char → Py.is_abs name = false → Py.path_join d name = d ++ name.
Proof.
  intros Hd Hn. unfold Py.path_join. rewrite Hn, Hd. by rewrite decide_True.
Qed.

Lemma after_last_None c s : c ∉ s → Py.after_last c s = None.
Proof.
  induction s as [|x s IH]; [done|]. rewrite not_elem_of_cons. intros [Hne Hs].
  cbn. rewrite IH by done. by rewrite decide_False.
Qed.

Lemma after_last_app c s t : c ∉ t → Py.after_last c (s ++ c :: t) = Some t.
Proof.
  intros Ht. induction s as [|x s IH]; cbn.
  - rewrite after_last_None by done. by rewrite decide_True.
  - by rewrite IH.
Qed.

Lemma before_last_None c s : c ∉ s → Py.before_last c s = None.
Proof.
  induction s as [|x s IH]; [done|]. rewrite not_elem_of_cons. intros [Hne Hs].
  cbn. rewrite IH by done. by rewrite decide_False.
Qed.

Lemma before_last_app c s t : c ∉ t → Py.before_last c (s ++ c :: t) = Some s.
Proof.
  intros Ht. induction s as [|x s IH]; cbn.
  - rewrite before_last_None by done. by rewrite decide_True.
  - by rewrite IH.
Qed.

Lemma basename_dir (d name : Py.str) :
  "/"%char ∉ name → Py.basename (d ++ "/"%char :: name) = name.
Proof. intros Hn. unfold Py.basename. by rewrite after_last_app. Qed.

Lemma splitext_root_ext (stem ext : Py.str) :
  "."%char ∉ ext → forallb (fun c => bool_decide (c = "."%char)) stem = false →
  Py.splitext_root (stem ++ "."%char :: ext) = stem.
Proof.
  intros He Hs. unfold Py.splitext_root. rewrite before_last_app by done.
  by rewrite Hs.
Qed.

(** [s[-(m+k):-k]] is the [m] characters in front of the last [k]. *)
Lemma slice_from_end {A} (pre mid suf : list A) (a b : Z) :
  0 < length suf →
  a = (- Z.of_nat (length mid + length suf))%Z → b = (- Z.of_nat (length suf))%Z →
  Py.slice (pre ++ mid ++ suf) (Some a) (Some b) = mid.
Proof.
  intros Hs -> ->. unfold Py.slice, Py.clamp. cbn [from_option].
  rewrite !decide_True by lia. rewrite !length_app.
  replace (Z.to_nat (Z.of_nat (length pre + (length mid + length suf))
                     + - Z.of_nat (length mid + length suf))) with (length pre) by lia.
  replace (Z.to_nat (Z.of_nat (length pre + (length mid + length suf))
                     + - Z.of_nat (length suf)) - length pre) with (length mid) by lia.
  by rewrite drop_app_length, take_app_length.
Qed.

(** [s[-n:] == s[-n:-k] + s[-k:]] for [0 < k <= n]. *)
Lemma slice_split {A} (s : list A) (n k : nat) :
  0 < k ≤ n →
  Py.slice s (Some (- Z.of_nat n)%Z) None
  = Py.slice s (Some (- Z.of_nat n)%Z) (Some (- Z.of_nat k)%Z)
    ++ Py.slice s (Some (- Z.of_nat k)%Z) None.
Proof.
  intros Hk. unfold Py.slice, Py.clamp. cbn [from_option].
  rewrite !decide_True by lia.
  set (lo := Z.to_nat (Z.of_nat (length s) + - Z.of_nat n)).
  set (hi := Z.to_nat (Z.of_nat (length s) + - Z.of_nat k)).
  assert (lo ≤ hi ≤ length s) as Hlh by lia.
  rewrite (take_ge (drop lo s)) by (rewrite length_drop; lia).
  rewrite (take_ge (drop hi s)) by (rewrite length_drop; lia).
  rewrite <-(take_drop (hi - lo) (drop lo s)) at 1.
  f_equal. rewrite drop_drop. f_equal. lia.
Qed.

End PathFacts.

Section NameFacts.

Lemma length_slice_neg {A} (s : list A) (n k : nat) :
  0 < n → 0 < k →
  length (Py.slice s (Some (- Z.of_nat n)%Z) (Some (- Z.of_nat k)%Z))
  = Nat.min n (length s) - k.
Proof.
  intros Hn Hk. unfold Py.slice, Py.clamp. cbn [from_option].
  rewrite !decide_True by lia. rewrite length_take, length_drop. lia.
Qed.

Lemma length_path_join_outputdir (d name : Py.str) :
  last d = Some "/"%char →
  length (Py.path_join d name)
  = if Py.is_abs name then length name else length d + length name.
Proof.
  intros Hd. unfold Py.path_join. destruct (Py.is_abs name); [done|].
  rewrite Hd, decide_True by done. by rewrite length_app.
Qed.

Lemma is_abs_app (a b : Py.str) : a ≠ [] → Py.is_abs (a ++ b) = Py.is_abs a.
Proof. by destruct a. Qed.

Lemma is_abs_false (s : Py.str) : "/"%char ∉ s → Py.is_abs s = false.
Proof.
  destruct s as [|c s]; [done|]. rewrite not_elem_of_cons. intros [Hc _].
  cbn. by apply bool_decide_eq_false.
Qed.

Lemma not_all_dots (s : Py.str) :
  s ≠ [] → "."%char ∉ s → forallb (fun c => bool_decide (c = "."%char)) s = false.
Proof.
  destruct s as [|c s]; [done|]. rewrite not_elem_of_cons. intros _ [Hc _].
  cbn. by rewrite bool_decide_eq_false_2.
Qed.

(** The file [compute_ivt-anomaly.py] writes for an input [dir/stem.nc]. *)
Lemma anomaly_main_output_stem (dir stem : Py.str) :
  stem ≠ [] → "/"%char ∉ stem → "."%char ∉ stem →
  Anomaly.main_output (dir ++ "/"%char :: stem ++ Py.s2l ".nc")
  = Anomaly.OUTPUTDIR ++ stem ++ Py.s2l "-ano-250.nc".
Proof.
  intros Hne Hsl Hdot. unfold Anomaly.main_output.
  rewrite basename_dir.
  - change (stem ++ Py.s2l ".nc") with (stem ++ "."%char :: Py.s2l "nc").
    rewrite splitext_root_ext; [| |by apply not_all_dots].
    + rewrite path_join_rel; [done|done|].
      rewrite is_abs_app by done. by apply is_abs_false.
    + vm_compute. intros H.
      repeat (apply elem_of_cons in H as [H|H]; [discriminate|]).
      by apply elem_of_nil in H.
  - rewrite elem_of_app. intros [?|H]; [done|]. vm_compute in H.
    repeat (apply elem_of_cons in H as [H|H]; [discriminate|]).
    by apply elem_of_nil in H.
Qed.

Lemma anomaly_skip_test_exact_iff_aux (dir stem : Py.str) :
  stem ≠ [] → "/"%char ∉ stem → "."%char ∉ stem →
  let file := dir ++ "/"%char :: stem ++ Py.s2l ".nc" in
  Anomaly.main_output file = Anomaly.OUTPUTDIR ++ stem ++ Py.s2l "-ano-250.nc"
  ∧ (Anomaly.expected_output file = Anomaly.main_output file ↔ length stem = 15).
Proof.
  intros Hne Hsl Hdot file. split; [by apply anomaly_main_output_stem|].
  unfold file. rewrite anomaly_main_output_stem by done. split.
  - intros Heq. apply (f_equal length) in Heq. revert Heq.
    unfold Anomaly.expected_output.
    rewrite length_path_join_outputdir by done. rewrite !length_app.
    rewrite (length_slice_neg _ 18 3) by lia.
    rewrite length_app. cbn [length]. rewrite length_app. 
    change (length (Py.s2l ".nc")) with 3. change (length (Py.s2l "-ano-250.nc")) with 11.
    assert (15 < length Anomaly.OUTPUTDIR) as HL by (vm_compute; lia).
    destruct (Py.is_abs _); lia.
  - intros Hlen. unfold Anomaly.expected_output.
    replace (dir ++ "/"%char :: stem ++ Py.s2l ".nc")
      with ((dir ++ ["/"%char]) ++ stem ++ Py.s2l ".nc") by (by rewrite <-app_assoc).
    rewrite (slice_from_end (dir ++ ["/"%char]) stem (Py.s2l ".nc"));
      [|cbn; lia|rewrite Hlen; reflexivity|reflexivity].
    rewrite path_join_rel; [done|done|].
    rewrite is_abs_app by done. by apply is_abs_false.
Qed.

(** X5.  The skip test of the anomaly driver looks for the file that [main]
    writes exactly when the base name of the input, without its extension
    [.nc], is 15 characters long (as in [era5_ivt_201108.nc]); for any other
    length the driver tests a path that [main] never writes, so that it
    queues the input again on every run. *)
Theorem anomaly_skip_test_exact_iff (dir stem : Py.str) :
  stem ≠ [] → "/"%char ∉ stem → "."%char ∉ stem →
  let file := dir ++ "/"%char :: stem ++ Py.s2l ".nc" in
  Anomaly.main_output file = Anomaly.OUTPUTDIR ++ stem ++ Py.s2l "-ano-250.nc"
  ∧ (Anomaly.expected_output file = Anomaly.main_output file ↔ length stem = 15).
Proof. apply anomaly_skip_test_exact_iff_aux. Qed.

Lemma anomaly_skip_test_exact_iff_witness :
  let dir := Py.s2l "/data" in
  let stem := Py.s2l "era5_ivt_2011080" in
  let file := dir ++ "/"%char :: stem ++ Py.s2l ".nc" in
  Anomaly.main_output file = Anomaly.OUTPUTDIR ++ stem ++ Py.s2l "-ano-250.nc"
  ∧ (Anomaly.expected_output file = Anomaly.main_output file ↔ length stem = 15).
Proof.
  intros dir stem file.
  apply (anomaly_skip_test_exact_iff dir stem); [done|..];
    (apply (bool_decide_unpack _); vm_compute; exact I).
Defined.

Lemma not_elem_of_literal (c : ascii) (lit s : Py.str) :
  bool_decide (c ∉ lit) = true → c ∉ s → c ∉ lit ++ s.
Proof.
  intros Hl Hs. apply bool_decide_eq_true in Hl. rewrite elem_of_app. tauto.
Qed.

(** X6.  [compute_ivt.py] names its output after the six characters in front
    of the extension of its input; [compute_ivt-anomaly.py] turns that name
    into [era5_ivt_<stamp>-ano-250.nc], and its skip test looks for exactly
    this file: the outputs of the first script are inputs for which the skip
    logic of the second is exact. *)
Theorem ivt_output_feeds_anomaly (pre stamp : Py.str) :
  length stamp = 6 → "/"%char ∉ stamp → "."%char ∉ stamp →
  let ivt_file := Ivt.main_output (pre ++ stamp ++ Py.s2l ".nc") in
  ivt_file = Ivt.OUTPUTFILE ++ Py.s2l "era5_ivt_" ++ stamp ++ Py.s2l ".nc"
  ∧ Anomaly.main_output ivt_file
    = Anomaly.OUTPUTDIR ++ Py.s2l "era5_ivt_" ++ stamp ++ Py.s2l "-ano-250.nc"
  ∧ Anomaly.expected_output ivt_file = Anomaly.main_output ivt_file.
Proof.
  intros Hlen Hsl Hdot ivt_file.
  assert (ivt_file = Py.s2l "/home/jingzhao/wangbp/era5/ivt_summer_mon"
                     ++ "/"%char :: (Py.s2l "era5_ivt_" ++ stamp) ++ Py.s2l ".nc") as Hfile.
  { unfold ivt_file, Ivt.main_output.
    rewrite (slice_from_end pre stamp (Py.s2l ".nc"));
      [|cbn; lia|rewrite Hlen; reflexivity|reflexivity].
    rewrite path_join_rel by done. by rewrite <-!app_assoc. }
  assert (Py.s2l "era5_ivt_" ++ stamp ≠ []) as Hne by done.
  assert ("/"%char ∉ Py.s2l "era5_ivt_" ++ stamp) as Hsl'
    by (by apply not_elem_of_literal).
  assert ("."%char ∉ Py.s2l "era5_ivt_" ++ stamp) as Hdot'
    by (by apply not_elem_of_literal).
  split; [by rewrite Hfile, <-!app_assoc|].
  destruct (anomaly_skip_test_exact_iff_aux
              (Py.s2l "/home/jingzhao/wangbp/era5/ivt_summer_mon") _ Hne Hsl' Hdot')
    as [Hout Hiff].
  rewrite Hfile. split.
  - by rewrite Hout, <-!app_assoc.
  - apply Hiff. rewrite length_app, Hlen. reflexivity.
Qed.

Lemma ivt_output_feeds_anomaly_witness :
  let ivt_file := Ivt.main_output (Py.s2l "/home/jingzhao/xiaohui/era5/era5_vq_200609.nc") in
  ivt_file = Ivt.OUTPUTFILE ++ Py.s2l "era5_ivt_" ++ Py.s2l "200609" ++ Py.s2l ".nc"
  ∧ Anomaly.main_output ivt_file
    = Anomaly.OUTPUTDIR ++ Py.s2l "era5_ivt_" ++ Py.s2l "200609" ++ Py.s2l "-ano-250.nc"
  ∧ Anomaly.expected_output ivt_file = Anomaly.main_output ivt_file.
Proof.
  apply (ivt_output_feeds_anomaly
           (Py.s2l "/home/jingzhao/xiaohui/era5/era5_vq_") (Py.s2l "200609"));
    [reflexivity|..]; (apply (bool_decide_unpack _); vm_compute; exact I).
Defined.

(** X7.  For an input named [...<YYYY><MM>-ano-250.nc], as the anomaly script
    names its outputs, [detect_ARs.py] takes the year and the month out of
    the name: the label file is [ar_label-angle-flux_<YYYY><MM>.nc] and the
    record file [ar_records_<YYYY><MM>.csv], both in its output folder. *)
Theorem detect_output_names (pre YYYY MM : Py.str) :
  length YYYY = 4 → length MM = 2 →
  let file := pre ++ YYYY ++ MM ++ Py.s2l "-ano-250.nc" in
  Detect.label_path file
    = Detect.OUTPUTDIR ++ Py.s2l "ar_label-angle-flux_" ++ YYYY ++ MM ++ Py.s2l ".nc"
  ∧ Detect.record_path file
    = Detect.OUTPUTDIR ++ Py.s2l "ar_records_" ++ YYYY ++ MM ++ Py.s2l ".csv".
Proof.
  intros HY HM file.
  assert (Py.slice file (Some (-17)%Z) (Some (-13)%Z) = YYYY) as Hy.
  { unfold file. apply (slice_from_end pre YYYY (MM ++ Py.s2l "-ano-250.nc"));
      rewrite ?length_app, ?HY, ?HM; cbn; lia. }
  assert (Py.slice file (Some (-13)%Z) (Some (-11)%Z) = MM) as Hm.
  { unfold file. rewrite (app_assoc pre YYYY).
    apply (slice_from_end (pre ++ YYYY) MM (Py.s2l "-ano-250.nc"));
      rewrite ?HM; cbn; lia. }
  unfold Detect.label_path, Detect.record_path,
    Detect.LABEL_FILE_OUT_NAME, Detect.RECORD_FILE_OUT_NAME.
  rewrite Hy, Hm. split; by rewrite path_join_rel.
Qed.

Lemma detect_output_names_witness :
  let file := Py.s2l "/home/jingzhao/wangbp/era5/ivt250_summer_mon/era5_ivt_"
              ++ Py.s2l "2011" ++ Py.s2l "08" ++ Py.s2l "-ano-250.nc" in
  Detect.label_path file
    = Detect.OUTPUTDIR ++ Py.s2l "ar_label-angle-flux_" ++ Py.s2l "2011" ++ Py.s2l "08"
      ++ Py.s2l ".nc"
  ∧ Detect.record_path file
    = Detect.OUTPUTDIR ++ Py.s2l "ar_records_" ++ Py.s2l "2011" ++ Py.s2l "08"
      ++ Py.s2l ".csv".
Proof.
  apply (detect_output_names
           (Py.s2l "/home/jingzhao/wangbp/era5/ivt250_summer_mon/era5_ivt_")
           (Py.s2l "2011") (Py.s2l "08")); reflexivity.
Defined.

(** X8.  The skip test of the tracking driver looks for the file that [main]
    writes exactly when the input name ends with [.csv]; the file that
    [main] writes depends on nothing but the characters 18 to 5 from the end
    of the input name. *)
Theorem trace_skip_test_exact_iff (file : Py.str) :
  (Trace.expected_output file = Trace.main_output file
   ↔ Py.s2l ".csv" `suffix_of` file)
  ∧ ∀ file', Py.slice file (Some (-18)%Z) (Some (-4)%Z)
             = Py.slice file' (Some (-18)%Z) (Some (-4)%Z) →
             Trace.main_output file = Trace.main_output file'.
Proof.
  split; [|intros file' Heq; unfold Trace.main_output; by rewrite Heq].
  unfold Trace.expected_output, Trace.main_output.
  rewrite !path_join_rel by done.
  pose proof (slice_split file 18 4 ltac:(lia)) as Hsp.
  change (- Z.of_nat 18)%Z with (-18)%Z in Hsp.
  change (- Z.of_nat 4)%Z with (-4)%Z in Hsp. rewrite Hsp. clear Hsp.
  split.
  - intros Heq. apply app_inv_head in Heq. apply app_inv_head in Heq.
    apply app_inv_head in Heq.
    exists (take (length file - 4) file).
    rewrite <-Heq. unfold Py.slice, Py.clamp. cbn [from_option].
    rewrite decide_True by lia.
    replace (Z.to_nat (Z.of_nat (length file) + -4)) with (length file - 4) by lia.
    rewrite (take_ge (drop (length file - 4) file)) by (rewrite length_drop; lia).
    by rewrite take_drop.
  - intros [k ->]. do 3 f_equal.
    unfold Py.slice, Py.clamp. cbn [from_option].
    rewrite decide_True by lia. rewrite length_app.
    replace (Z.to_nat (Z.of_nat (length k + length (Py.s2l ".csv")) + -4))
      with (length k) by (cbn; lia).
    rewrite drop_app_length. by rewrite take_ge by (cbn; lia).
Qed.

End NameFacts.

(** ** More on the runs of [detect_ARs.py] *)

Section DetectRunFacts.
Import Np Detect.

(** [main] on a well-formed input: the two files it writes. *)
Lemma main_writes gen fs f ivt ivt_rec ivt_ano :
  fs !! f = Some (NcInput ivt ivt_rec ivt_ano) → ndim (squeeze ivt) = 3 →
  let st0 := {| csv := match fs !! record_path f with
                       | Some (CsvFile ls) => ls
                       | _ => []
                       end;
                nc := [] |} in
  let run := save_steps module_globals main_locals
               (gen (squeeze ivt) (squeeze ivt_rec) (squeeze ivt_ano)
                    (full (shape (squeeze ivt)) 0%Z) (full (shape (squeeze ivt)) 0%Z))
               st0 in
  main gen fs f
  = (run.1, <[record_path f := CsvFile (csv run.2)]>
              (<[label_path f := NcOutput (nc run.2)]> fs)).
Proof.
  intros Hf H3 st0 run. unfold main. rewrite Hf. unfold shape_check.
  rewrite decide_False by (unfold ndim in *; cbn [shape full]; tauto).
  rewrite decide_False by (cbn [shape full]; tauto).
  fold (label_path f) (record_path f). fold st0. fold run. by destruct run.
Qed.

(** [main] on anything else: nothing is written. *)
Lemma main_skips gen fs f :
  (∀ ivt ivt_rec ivt_ano,
     fs !! f = Some (NcInput ivt ivt_rec ivt_ano) → ndim (squeeze ivt) ≠ 3) →
  (main gen fs f).2 = fs ∧ raises (main gen fs f).1.
Proof.
  intros Hbad. unfold main.
  destruct (fs !! f) as [[ivt ivt_rec ivt_ano| |]|] eqn:Hf; try done.
  unfold shape_check. rewrite decide_True; [done|]. left. by eapply Hbad.
Qed.

Lemma main_untouched gen fs f p :
  p ≠ label_path f → p ≠ record_path f → (main gen fs f).2 !! p = fs !! p.
Proof.
  intros Hl Hr.
  destruct (fs !! f) as [[ivt ivt_rec ivt_ano| |]|] eqn:Hf.
  - destruct (decide (ndim (squeeze ivt) = 3)) as [H3|H3].
    + rewrite (main_writes gen fs f _ _ _ Hf H3). cbn [snd].
      by rewrite !lookup_insert_ne.
    + by rewrite (main_shape_error gen fs f _ _ _ Hf H3).
  - unfold main. by rewrite Hf.
  - unfold main. by rewrite Hf.
  - unfold main. by rewrite Hf.
Qed.



(** What [main] reports and writes depends on the file system only through
    its input file and its record file. *)
Lemma main_local gen fs fs' f :
  fs !! f = fs' !! f → fs !! record_path f = fs' !! record_path f →
  (main gen fs f).1 = (main gen fs' f).1 ∧
  ((main gen fs f).2 = fs ∧ (main gen fs' f).2 = fs'
   ∨ ∃ c n, (main gen fs f).2 = <[record_path f := c]> (<[label_path f := n]> fs) ∧
            (main gen fs' f).2 = <[record_path f := c]> (<[label_path f := n]> fs')).
Proof.
  intros Hf Hr.
  destruct (fs !! f) as [[ivt ivt_rec ivt_ano| |]|] eqn:Hf1.
  - symmetry in Hf. destruct (decide (ndim (squeeze ivt) = 3)) as [H3|H3].
    + rewrite (main_writes gen fs f _ _ _ Hf1 H3), (main_writes gen fs' f _ _ _ Hf H3).
      rewrite <-Hr. cbn [fst snd]. split; [done|]. right. by eauto.
    + rewrite (main_shape_error gen fs f _ _ _ Hf1 H3),
        (main_shape_error gen fs' f _ _ _ Hf H3). split; [done|]. by left.
  - unfold main. rewrite <-Hf, Hf1. split; [done|]. by left.
  - unfold main. rewrite <-Hf, Hf1. split; [done|]. by left.
  - unfold main. rewrite <-Hf, Hf1. split; [done|]. by left.
Qed.

(** X10.  Two tasks commute when they write different files and neither
    reads a file the other writes: both orders report the same results and
    leave the same file system, so the order in which the pool takes such
    files does not matter. *)
Theorem main_tasks_commute (gen : finder) (fs : filesystem) (f g : Py.str) :
  f ≠ label_path g → f ≠ record_path g →
  g ≠ label_path f → g ≠ record_path f →
  label_path f ≠ label_path g → record_path f ≠ record_path g →
  label_path f ≠ record_path g → record_path f ≠ label_path g →
  pool_map (main gen) [f; g] fs
  = ([(main gen fs f).1; (main gen fs g).1], (pool_map (main gen) [g; f] fs).2)
  ∧ pool_map (main gen) [g; f] fs
    = ([(main gen fs g).1; (main gen fs f).1], (pool_map (main gen) [g; f] fs).2).
Proof.
  intros Hfl Hfr Hgl Hgr Hll Hrr Hlr Hrl.
  assert ((main gen fs f).2 !! g = fs !! g) as Hg1 by (by apply main_untouched).
  assert ((main gen fs f).2 !! record_path g = fs !! record_path g) as Hg2
    by (by apply main_untouched).
  assert ((main gen fs g).2 !! f = fs !! f) as Hf1 by (by apply main_untouched).
  assert ((main gen fs g).2 !! record_path f = fs !! record_path f) as Hf2
    by (by apply main_untouched).
  destruct (main_local gen fs (main gen fs f).2 g) as [Hrg Hsg]; [done|done|].
  destruct (main_local gen fs (main gen fs g).2 f) as [Hrf Hsf]; [done|done|].
  cbn [pool_map].
  destruct (main gen fs f) as [rf fs_f] eqn:Ef.
  destruct (main gen fs g) as [rg fs_g] eqn:Eg. cbn [fst snd] in *.
  destruct (main gen fs_f g) as [rg' fs_fg] eqn:Efg.
  destruct (main gen fs_g f) as [rf' fs_gf] eqn:Egf. cbn [fst snd] in *.
  subst rg' rf'. split; [|done]. f_equal.
  destruct Hsg as [[-> ->]|(cg & ng & -> & ->)],
           Hsf as [[-> ->]|(cf & nf & -> & ->)]; try done.
  apply map_eq. intros p.
  destruct (decide (p = record_path f)) as [->|?];
    [by rewrite lookup_insert_eq, !lookup_insert_ne, lookup_insert_eq by done|].
  destruct (decide (p = label_path f)) as [->|?];
    [by rewrite !lookup_insert_ne, lookup_insert_eq,
                (lookup_insert_ne _ (record_path f)), lookup_insert_eq by done|].
  destruct (decide (p = record_path g)) as [->|?];
    [by rewrite lookup_insert_eq, !lookup_insert_ne, lookup_insert_eq by done|].
  destruct (decide (p = label_path g)) as [->|?];
    [by rewrite (lookup_insert_ne _ (record_path g)), lookup_insert_eq,
                !lookup_insert_ne, lookup_insert_eq by done|].
  by rewrite !lookup_insert_ne.
Qed.

Lemma main_tasks_commute_witness :
  let gen : finder := fun ivt _ _ _ _ =>
    [ {| tidx := 0; timett := 0; label := full (shape ivt) 0%Z;
         result_df := {| columns := ["id"]%string; rows := [["1"]%string] |} |} ] in
  let f := Py.s2l "/in/era5_ivt_201105-ano-250.nc" in
  let g := Py.s2l "/in/era5_ivt_201106-ano-250.nc" in
  let field := full [2; 2; 2] 300%Z in
  let fs : filesystem := {[ f := NcInput field field field; g := NcInput field field field ]} in
  (pool_map (main gen) [f; g] fs).2 = (pool_map (main gen) [g; f] fs).2.
Proof.
  intros gen f g field fs.
  refine (f_equal snd (proj1 (main_tasks_commute gen fs f g _ _ _ _ _ _ _ _)));
    vm_compute; discriminate.
Defined.

End DetectRunFacts.

(** ** The batch driver of [detect_ARs.py] *)

Section DetectDriverFacts.
Import Detect.

(** The key of the sort on line 322. *)
Local Abbreviation sort_key :=
  (fun x : Py.str => Py.slice x (Some (-17)%Z) (Some (-11)%Z)).

Lemma str_leb_cons x a y b :
  Py.str_leb (x :: a) (y :: b)
  = if (nat_of_ascii x <? nat_of_ascii y)%nat then true
    else if (nat_of_ascii x =? nat_of_ascii y)%nat then Py.str_leb a b
    else false.
Proof. reflexivity. Qed.

Lemma str_leb_total a b : Py.str_leb a b = true ∨ Py.str_leb b a = true.
Proof.
  revert b. induction a as [|x a IH]; intros [|y b]; try (cbn; by auto).
  rewrite !str_leb_cons.
  destruct (Nat.ltb_spec (nat_of_ascii x) (nat_of_ascii y)); [by left|].
  destruct (Nat.ltb_spec (nat_of_ascii y) (nat_of_ascii x)); [by right|].
  assert (nat_of_ascii x = nat_of_ascii y) as -> by lia.
  rewrite Nat.eqb_refl. apply IH.
Qed.

Lemma str_leb_trans a b c :
  Py.str_leb a b = true → Py.str_leb b c = true → Py.str_leb a c = true.
Proof.
  revert b c. induction a as [|x a IH]; intros [|y b] [|z c]; try (cbn; done).
  rewrite !str_leb_cons.
  destruct (Nat.ltb_spec (nat_of_ascii x) (nat_of_ascii y)) as [Hxy|Hxy].
  - intros _.
    destruct (Nat.ltb_spec (nat_of_ascii y) (nat_of_ascii z)) as [Hyz|Hyz].
    + intros _. by rewrite (proj2 (Nat.ltb_lt _ _)) by lia.
    + destruct (Nat.eqb_spec (nat_of_ascii y) (nat_of_ascii z)) as [Heq|]; [|done].
      intros _. by rewrite (proj2 (Nat.ltb_lt _ _)) by lia.
  - destruct (Nat.eqb_spec (nat_of_ascii x) (nat_of_ascii y)) as [Heq|]; [|done].
    rewrite Heq. intros Hab.
    destruct (Nat.ltb_spec (nat_of_ascii y) (nat_of_ascii z)) as [Hyz|Hyz]; [done|].
    destruct (Nat.eqb_spec (nat_of_ascii y) (nat_of_ascii z)) as [Heq'|]; [|done].
    by apply IH.
Qed.

#[local] Instance by_key_total (key : Py.str → Py.str) :
  Total (fun a b => Py.str_le (key a) (key b)).
Proof.
  intros a b. unfold Py.str_le.
  destruct (str_leb_total (key a) (key b)) as [->| ->]; [by left|by right].
Qed.

#[local] Instance by_key_trans (key : Py.str → Py.str) :
  Transitive (fun a b => Py.str_le (key a) (key b)).
Proof.
  intros a b c. unfold Py.str_le. intros Hab%Is_true_true Hbc%Is_true_true.
  apply Is_true_true. by eapply str_leb_trans.
Qed.

(** The two-character month of the pattern. *)
Lemma month_zfill (mon : nat) :
  5 ≤ mon ≤ 9 →
  Py.zfill 2 (Py.str_of_nat mon) = "0"%char :: Py.str_of_nat mon
  ∧ length (Py.str_of_nat mon) = 1.
Proof.
  intros Hm.
  assert (mon = 5 ∨ mon = 6 ∨ mon = 7 ∨ mon = 8 ∨ mon = 9) as Hc by lia.
  destruct Hc as [->|[->|[->|[->| ->]]]]; by vm_compute.
Qed.

Lemma elem_of_IVT_FILE_NAME existing f :
  f ∈ IVT_FILE_NAME existing
  ↔ f ∈ existing ∧
    ∃ mon, 5 ≤ mon ≤ 9 ∧
      Py.glob_match (SOURCEDIR ++ Py.s2l "era5_ivt_")
                    (Py.zfill 2 (Py.str_of_nat mon) ++ Py.s2l "-ano-250.nc") f.
Proof.
  unfold IVT_FILE_NAME, Py.sort_by_key. rewrite merge_sort_Permutation.
  unfold IVT_FILE_NAME_unsorted. rewrite list_elem_of_bind.
  change (Py.path_join SOURCEDIR (Py.s2l "era5_ivt_"))
    with (SOURCEDIR ++ Py.s2l "era5_ivt_").
  split.
  - intros (mon & Hf & Hmon). apply elem_of_seq in Hmon.
    unfold month_files, Py.glob in Hf.
    apply list_elem_of_filter in Hf as [Hm Hf]. apply elem_of_elements in Hf.
    split; [done|]. exists mon. split; [lia|]. exact Hm.
  - intros (Hf & mon & Hmon & Hm). exists mon. split; [|apply elem_of_seq; lia].
    unfold month_files, Py.glob. apply list_elem_of_filter. split; [exact Hm|].
    by apply elem_of_elements.
Qed.

(** A file of the list ends with its month and [-ano-250.nc]. *)
Lemma glob_match_month pre mon f :
  5 ≤ mon ≤ 9 →
  Py.glob_match pre (Py.zfill 2 (Py.str_of_nat mon) ++ Py.s2l "-ano-250.nc") f →
  ∃ s0, f = s0 ++ "0"%char :: Py.str_of_nat mon ++ Py.s2l "-ano-250.nc".
Proof.
  intros Hmon (_ & [k Hk] & _). destruct (month_zfill mon Hmon) as [Hz _].
  exists (take (length pre) f ++ k).
  rewrite <-(take_drop (length pre) f) at 1. rewrite Hk, Hz.
  by rewrite <-!app_assoc.
Qed.

Lemma month_of_file s0 (mon : nat) :
  5 ≤ mon ≤ 9 →
  Py.slice (s0 ++ "0"%char :: Py.str_of_nat mon ++ Py.s2l "-ano-250.nc")
           (Some (-13)%Z) (Some (-11)%Z)
  = "0"%char :: Py.str_of_nat mon.
Proof.
  intros Hmon. destruct (month_zfill mon Hmon) as [_ Hlen].
  apply (slice_from_end s0 ("0"%char :: Py.str_of_nat mon) (Py.s2l "-ano-250.nc")).
  - cbn. lia.
  - cbn [length]. rewrite Hlen. reflexivity.
  - reflexivity.
Qed.

Lemma str_of_month_inj (m1 m2 : nat) :
  5 ≤ m1 ≤ 9 → 5 ≤ m2 ≤ 9 → Py.str_of_nat m1 = Py.str_of_nat m2 → m1 = m2.
Proof.
  intros H1 H2.
  assert (m1 = 5 ∨ m1 = 6 ∨ m1 = 7 ∨ m1 = 8 ∨ m1 = 9) as Hc1 by lia.
  assert (m2 = 5 ∨ m2 = 6 ∨ m2 = 7 ∨ m2 = 8 ∨ m2 = 9) as Hc2 by lia.
  destruct Hc1 as [->|[->|[->|[->| ->]]]], Hc2 as [->|[->|[->|[->| ->]]]];
    vm_compute; congruence.
Qed.

Lemma NoDup_IVT_FILE_NAME existing : NoDup (IVT_FILE_NAME existing).
Proof.
  unfold IVT_FILE_NAME, Py.sort_by_key. rewrite merge_sort_Permutation.
  unfold IVT_FILE_NAME_unsorted. apply NoDup_bind.
  - intros m1 m2 f Hm1%elem_of_seq Hm2%elem_of_seq Hf1 Hf2.
    unfold month_files, Py.glob in Hf1, Hf2.
    apply list_elem_of_filter in Hf1 as [Hf1 _].
    apply list_elem_of_filter in Hf2 as [Hf2 _].
    apply glob_match_month in Hf1 as [s1 Hs1]; [|lia].
    apply glob_match_month in Hf2 as [s2 Hs2]; [|lia].
    apply str_of_month_inj; [lia|lia|].
    pose proof (month_of_file s1 m1 ltac:(lia)) as E1.
    pose proof (month_of_file s2 m2 ltac:(lia)) as E2.
    rewrite <-Hs1 in E1. rewrite <-Hs2 in E2. congruence.
  - intros mon _. unfold month_files, Py.glob.
    apply NoDup_filter, NoDup_elements.
  - apply NoDup_seq.
Qed.

(** X11.  The list of the driver holds, once each, the paths on disk that
    match the pattern of one of the months May to September; it is in the
    order of the key [x[-17:-11]]; and the month that [main] reads off a
    path of the list ([IVT_FILE_NAME[-13:-11]]) is the month of its
    pattern. *)
Theorem detect_driver_file_list (existing : Py.disk) :
  (∀ f, f ∈ IVT_FILE_NAME existing
        ↔ f ∈ existing ∧
          ∃ mon, 5 ≤ mon ≤ 9 ∧
            Py.glob_match (SOURCEDIR ++ Py.s2l "era5_ivt_")
                          ("0"%char :: Py.str_of_nat mon ++ Py.s2l "-ano-250.nc") f)
  ∧ NoDup (IVT_FILE_NAME existing)
  ∧ StronglySorted (fun a b => Py.str_le (sort_key a) (sort_key b))
                   (IVT_FILE_NAME existing)
  ∧ ∀ f, f ∈ IVT_FILE_NAME existing →
         ∃ mon, 5 ≤ mon ≤ 9 ∧
           Py.slice f (Some (-13)%Z) (Some (-11)%Z) = "0"%char :: Py.str_of_nat mon.
Proof.
  split_and!.
  - intros f. rewrite elem_of_IVT_FILE_NAME. split.
    + intros (Hf & mon & Hmon & Hm). split; [done|]. exists mon. split; [done|].
      destruct (month_zfill mon Hmon) as [Hz _]. by rewrite Hz in Hm.
    + intros (Hf & mon & Hmon & Hm). split; [done|]. exists mon. split; [done|].
      destruct (month_zfill mon Hmon) as [Hz _]. by rewrite Hz.
  - apply NoDup_IVT_FILE_NAME.
  - unfold IVT_FILE_NAME, Py.sort_by_key. apply StronglySorted_merge_sort; apply _.
  - intros f (Hf & mon & Hmon & Hm)%elem_of_IVT_FILE_NAME.
    exists mon. split; [done|].
    apply glob_match_month in Hm as [s0 ->]; [|done].
    by apply month_of_file.
Qed.

(** *** The batches *)

Lemma slice_nonneg {A} (l : list A) (a b : nat) :
  Py.slice l (Some (Z.of_nat a)) (Some (Z.of_nat b)) = take (b - a) (drop a l).
Proof.
  unfold Py.slice, Py.clamp. cbn [from_option].
  rewrite !decide_False by lia. rewrite !Nat2Z.id.
  destruct (decide (a ≤ length l)) as [Ha|Ha].
  - rewrite (Nat.min_l a) by done.
    destruct (decide (b ≤ length l)) as [Hb|Hb].
    + by rewrite (Nat.min_l b) by done.
    + rewrite (Nat.min_r b) by lia.
      rewrite !take_ge; [done|rewrite length_drop; lia|rewrite length_drop; lia].
  - rewrite (Nat.min_r a) by lia. rewrite !drop_ge by lia. by rewrite !take_nil.
Qed.

Lemma slice_nonneg_from {A} (l : list A) (a : nat) :
  Py.slice l (Some (Z.of_nat a)) None = drop a l.
Proof.
  unfold Py.slice, Py.clamp. cbn [from_option].
  rewrite !decide_False by lia. rewrite !Nat2Z.id.
  destruct (decide (a ≤ length l)) as [Ha|Ha].
  - rewrite (Nat.min_l a) by done. rewrite take_ge; [done|]. rewrite length_drop. lia.
  - rewrite (Nat.min_r a) by lia. rewrite !drop_ge by lia. by rewrite take_nil.
Qed.

Lemma select_batch_nat (n : nat) files :
  select_batch (Z.of_nat n) files
  = if decide (n < 6) then take 24 (drop (n * 24) files) else drop (n * 24) files.
Proof.
  unfold select_batch. destruct (decide (n < 6)) as [Hn|Hn].
  - rewrite decide_True by lia.
    replace (Z.of_nat n * 24)%Z with (Z.of_nat (n * 24)) by lia.
    replace ((Z.of_nat n + 1) * 24)%Z with (Z.of_nat ((n + 1) * 24)) by lia.
    rewrite slice_nonneg. f_equal. lia.
  - rewrite decide_False by lia.
    replace (Z.of_nat n * 24)%Z with (Z.of_nat (n * 24)) by lia.
    apply slice_nonneg_from.
Qed.

Lemma select_batch_partition_aux files :
  concat ((fun num => select_batch num files) <$> [0; 1; 2; 3; 4; 5; 6]%Z) = files
  ∧ (∀ num, (0 ≤ num < 6)%Z → length (select_batch num files) ≤ 24)
  ∧ (∀ num, (6 ≤ num)%Z →
       select_batch num files `suffix_of` select_batch 6 files).
Proof.
  split_and!.
  - cbn [fmap list_fmap concat].
    change 0%Z with (Z.of_nat 0). change 1%Z with (Z.of_nat 1).
    change 2%Z with (Z.of_nat 2). change 3%Z with (Z.of_nat 3).
    change 4%Z with (Z.of_nat 4). change 5%Z with (Z.of_nat 5).
    change 6%Z with (Z.of_nat 6).
    rewrite !select_batch_nat. cbn [decide_rel]. 
    rewrite !decide_True by lia. rewrite decide_False by lia.
    rewrite app_nil_r.
    change (0 * 24) with 0. change (1 * 24) with 24. change (2 * 24) with (24 + 24).
    change (3 * 24) with (24 + (24 + 24)). change (4 * 24) with (24 + (24 + (24 + 24))).
    change (5 * 24) with (24 + (24 + (24 + (24 + 24)))).
    change (6 * 24) with (24 + (24 + (24 + (24 + (24 + 24))))).
    rewrite drop_0. rewrite <-!drop_drop.
    by rewrite !take_drop.
  - intros num Hnum. rewrite <-(Z2Nat.id num) by lia. rewrite select_batch_nat.
    rewrite decide_True by lia. rewrite length_take. lia.
  - intros num Hnum. rewrite <-(Z2Nat.id num) by lia.
    change 6%Z with (Z.of_nat 6). rewrite !select_batch_nat.
    rewrite !decide_False by lia.
    replace (Z.to_nat num * 24) with (6 * 24 + (Z.to_nat num * 24 - 6 * 24)) by lia.
    rewrite <-drop_drop. apply suffix_drop.
Qed.

(** X12.  The batches 0 to 6 split the sorted list: put one after the other
    they give the list back, so that seven runs ([num] from 0 to 6) hand
    every file to one batch and to no other.  Each of the batches 0 to 5 has
    at most 24 files, one per worker of the pool; batch 6 takes all that is
    left, and a batch number above 6 takes files that batch 6 takes too. *)
Theorem select_batch_partition (files : list Py.str) :
  concat ((fun num => select_batch num files) <$> [0; 1; 2; 3; 4; 5; 6]%Z) = files
  ∧ (∀ num, (0 ≤ num < 6)%Z → length (select_batch num files) ≤ 24)
  ∧ (∀ num, (6 ≤ num)%Z →
       select_batch num files `suffix_of` select_batch 6 files).
Proof. apply select_batch_partition_aux. Qed.

End DetectDriverFacts.

(** ** The files of a detection run *)

Section DetectOutputFacts.
Import Np Detect.

Local Abbreviation sort_key :=
  (fun x : Py.str => Py.slice x (Some (-17)%Z) (Some (-11)%Z)).

(** [s[-n:-m] + s[-m:-k] == s[-n:-k]] for [0 < k <= m <= n]. *)
Lemma slice_concat {A} (s : list A) (n m k : nat) :
  0 < k ≤ m → m ≤ n →
  Py.slice s (Some (- Z.of_nat n)%Z) (Some (- Z.of_nat m)%Z)
    ++ Py.slice s (Some (- Z.of_nat m)%Z) (Some (- Z.of_nat k)%Z)
  = Py.slice s (Some (- Z.of_nat n)%Z) (Some (- Z.of_nat k)%Z).
Proof.
  intros Hk Hm. unfold Py.slice, Py.clamp. cbn [from_option].
  rewrite !decide_True by lia.
  set (lo := Z.to_nat (Z.of_nat (length s) + - Z.of_nat n)).
  set (mi := Z.to_nat (Z.of_nat (length s) + - Z.of_nat m)).
  set (hi := Z.to_nat (Z.of_nat (length s) + - Z.of_nat k)).
  assert (lo ≤ mi ≤ hi) as Hlh by lia.
  replace (hi - lo) with ((mi - lo) + (hi - mi)) by lia.
  rewrite <-take_take_drop. f_equal. rewrite drop_drop. do 2 f_equal. lia.
Qed.

Lemma year_month_key (f : Py.str) :
  Py.slice f (Some (-17)%Z) (Some (-13)%Z) ++ Py.slice f (Some (-13)%Z) (Some (-11)%Z)
  = sort_key f.
Proof. apply (slice_concat f 17 13 11); lia. Qed.

Lemma label_path_key f :
  label_path f = OUTPUTDIR ++ Py.s2l "ar_label-angle-flux_" ++ sort_key f ++ Py.s2l ".nc".
Proof.
  unfold label_path, LABEL_FILE_OUT_NAME. rewrite path_join_rel by done.
  rewrite <-year_month_key. by rewrite <-!app_assoc.
Qed.

Lemma record_path_key f :
  record_path f = OUTPUTDIR ++ Py.s2l "ar_records_" ++ sort_key f ++ Py.s2l ".csv".
Proof.
  unfold record_path, RECORD_FILE_OUT_NAME. rewrite path_join_rel by done.
  rewrite <-year_month_key. by rewrite <-!app_assoc.
Qed.

Lemma label_path_not_record_path f g : label_path f ≠ record_path g.
Proof.
  rewrite label_path_key, record_path_key. intros Heq.
  apply app_inv_head in Heq. apply (f_equal (take 4)) in Heq.
  vm_compute in Heq. discriminate.
Qed.

Lemma driver_file_not_output existing f g :
  f ∈ IVT_FILE_NAME existing → f ≠ label_path g ∧ f ≠ record_path g.
Proof.
  intros (_ & mon & _ & [k Hk] & _)%elem_of_IVT_FILE_NAME.
  rewrite label_path_key, record_path_key.
  split; intros Heq; rewrite Heq in Hk; apply (f_equal (take 30)) in Hk;
    vm_compute in Hk; discriminate.
Qed.

(** X13.  Two inputs share their label file exactly when they share the six
    characters [x[-17:-11]] of their names (year and month), and likewise
    their record file; a label file is never a record file; and no path of
    the driver's list is an output of the script. *)
Theorem detect_outputs_collide_iff (existing : Py.disk) (f g : Py.str) :
  (label_path f = label_path g ↔ sort_key f = sort_key g)
  ∧ (record_path f = record_path g ↔ sort_key f = sort_key g)
  ∧ label_path f ≠ record_path g
  ∧ (f ∈ IVT_FILE_NAME existing → f ≠ label_path g ∧ f ≠ record_path g).
Proof.
  split_and!.
  - rewrite !label_path_key. split; [|by intros ->].
    intros Heq. apply app_inv_head in Heq. apply app_inv_head in Heq.
    by apply app_inv_tail in Heq.
  - rewrite !record_path_key. split; [|by intros ->].
    intros Heq. apply app_inv_head in Heq. apply app_inv_head in Heq.
    by apply app_inv_tail in Heq.
  - apply label_path_not_record_path.
  - apply driver_file_not_output.
Qed.

Lemma month_not_zero (mon : nat) : 5 ≤ mon ≤ 9 → Py.str_of_nat mon ≠ Py.s2l "0".
Proof.
  intros Hm.
  assert (mon = 5 ∨ mon = 6 ∨ mon = 7 ∨ mon = 8 ∨ mon = 9) as Hc by lia.
  destruct Hc as [->|[->|[->|[->| ->]]]]; vm_compute; discriminate.
Qed.

(** X14.  The tracking script is not fed by the detection script as the two
    are configured: its driver looks for [ar_records_*00.csv] in another
    folder than the one the detection writes to, and the record file of an
    input of the detection driver, named after a year and a month from May
    to September, ends with [05.csv] to [09.csv]: it matches [*00.csv] in no
    folder. *)
Theorem detect_records_not_tracked :
  (∀ f, ¬ Py.glob_match
            (Py.s2l "/home/jingzhao/wangbp/era5/AR_TEST/THR/arinfo_250/ar_records_")
            (Py.s2l "00.csv") (record_path f))
  ∧ (∀ existing pre f, f ∈ IVT_FILE_NAME existing →
       ¬ Py.glob_match pre (Py.s2l "00.csv") (record_path f)).
Proof.
  split.
  - intros f ([k Hk] & _). rewrite record_path_key in Hk.
    apply (f_equal (take 30)) in Hk. vm_compute in Hk. discriminate.
  - intros existing pre f (_ & mon & Hmon & Hm)%elem_of_IVT_FILE_NAME (_ & [k Hk] & _).
    apply glob_match_month in Hm as [s0 Hf]; [|done].
    pose proof (month_of_file s0 mon Hmon) as Hmonth. rewrite <-Hf in Hmonth.
    destruct (month_zfill mon Hmon) as [_ Hlen].
    assert (record_path f
            = (OUTPUTDIR ++ Py.s2l "ar_records_"
                 ++ Py.slice f (Some (-17)%Z) (Some (-13)%Z) ++ ["0"%char])
              ++ Py.str_of_nat mon ++ Py.s2l ".csv") as Hrec.
    { rewrite record_path_key, <-year_month_key, Hmonth.
      rewrite <-!app_assoc. reflexivity. }
    apply (f_equal (app (take (length pre) (record_path f)))) in Hk.
    rewrite take_drop in Hk. rewrite Hrec in Hk at 1.
    change (Py.s2l "00.csv") with (["0"%char] ++ Py.s2l "0" ++ Py.s2l ".csv") in Hk.
    rewrite !app_assoc in Hk. apply app_inv_tail in Hk.
    apply app_inj_2 in Hk as [_ Hk]; [|by rewrite Hlen].
    by apply (month_not_zero mon).
Qed.

(** X15.  A second run of [main] over the same input appends to the record
    file and rewrites the label file: the rows of the first time step are in
    the record file twice, under the one header of the first run, and the
    label file is the same as after the first run. *)
Theorem main_rerun_appends (gen : finder) (fs : filesystem) (f : Py.str)
    (ivt ivt_rec ivt_ano : ndarray Z) (s : step) (steps : list step) :
  fs !! f = Some (NcInput ivt ivt_rec ivt_ano) → ndim (squeeze ivt) = 3 →
  f ≠ label_path f → f ≠ record_path f →
  fs !! record_path f = None →
  gen (squeeze ivt) (squeeze ivt_rec) (squeeze ivt_ano)
      (full (shape (squeeze ivt)) 0%Z) (full (shape (squeeze ivt)) 0%Z) = s :: steps →
  let fs1 := (main gen fs f).2 in
  let fs2 := (main gen fs1 f).2 in
  fs1 !! record_path f
    = Some (CsvFile (Header (columns (result_df s)) :: (Row <$> rows (result_df s))))
  ∧ fs2 !! record_path f
    = Some (CsvFile (Header (columns (result_df s))
                     :: (Row <$> rows (result_df s)) ++ (Row <$> rows (result_df s))))
  ∧ fs1 !! label_path f
    = Some (NcOutput [NcDims (shape (label s)); NcVar (label s) (Some "int"%string)])
  ∧ fs2 !! label_path f = fs1 !! label_path f.
Proof.
  intros Hf H3 Hl Hr Hrec Hgen fs1 fs2.
  pose proof (label_path_not_record_path f f) as Hlr.
  assert (fs1 = <[record_path f :=
                    CsvFile (Header (columns (result_df s)) :: (Row <$> rows (result_df s)))]>
                  (<[label_path f :=
                       NcOutput [NcDims (shape (label s));
                                 NcVar (label s) (Some "int"%string)]]> fs)) as Hfs1.
  { unfold fs1. rewrite (main_writes gen fs f _ _ _ Hf H3). cbn zeta.
    rewrite Hgen, Hrec. cbn [save_steps]. rewrite save_step_unbound_angle.
    cbn [fst snd csv nc app]. unfold tell_is_0, to_csv. cbn [csv].
    rewrite ?bool_decide_eq_true_2 by done. reflexivity. }
  assert (fs1 !! f = Some (NcInput ivt ivt_rec ivt_ano)) as Hf1.
  { rewrite Hfs1. by rewrite !lookup_insert_ne. }
  assert (fs2 = <[record_path f :=
                    CsvFile (Header (columns (result_df s))
                             :: (Row <$> rows (result_df s)) ++ (Row <$> rows (result_df s)))]>
                  (<[label_path f :=
                       NcOutput [NcDims (shape (label s));
                                 NcVar (label s) (Some "int"%string)]]> fs1)) as Hfs2.
  { unfold fs2. rewrite (main_writes gen fs1 f _ _ _ Hf1 H3). cbn zeta.
    assert (fs1 !! record_path f
            = Some (CsvFile (Header (columns (result_df s))
                             :: (Row <$> rows (result_df s))))) as Hrec1
      by (by rewrite Hfs1, lookup_insert_eq).
    rewrite Hgen, Hrec1.
    cbn [save_steps]. rewrite save_step_unbound_angle.
    cbn [fst snd csv nc app]. unfold tell_is_0, to_csv. cbn [csv].
    rewrite ?bool_decide_eq_false_2 by done. reflexivity. }
  rewrite Hfs2, Hfs1.
  rewrite !lookup_insert_eq.
  rewrite !(lookup_insert_ne _ (record_path f) (label_path f)) by done.
  by rewrite !lookup_insert_eq.
Qed.

Lemma main_rerun_appends_witness :
  let s := {| tidx := 0; timett := 0; label := full [2; 2; 2] 0%Z;
              result_df := {| columns := ["id"]%string; rows := [["1"]%string] |} |} in
  let gen : finder := fun _ _ _ _ _ => [s] in
  let f := Py.s2l "/in/era5_ivt_201105-ano-250.nc" in
  let field := full [2; 2; 2] 300%Z in
  let fs : filesystem := {[ f := NcInput field field field ]} in
  (main gen (main gen fs f).2 f).2 !! record_path f
  = Some (CsvFile [Header ["id"]%string; Row ["1"]%string; Row ["1"]%string]).
Proof.
  intros s gen f field fs.
  refine (proj1 (proj2 (main_rerun_appends gen fs f field field field s [] _ _ _ _ _ _)));
    try reflexivity; vm_compute; discriminate.
Defined.

End DetectOutputFacts.

(** ** From the anomaly script to the detection script *)

Section HandOffFacts.

Lemma two_digit_months :
  Forall (fun m : nat =>
    length (Py.zfill 2 (Py.str_of_nat m)) = 2 ∧
    ("/"%char ∉ Py.zfill 2 (Py.str_of_nat m)) ∧
    ("."%char ∉ Py.zfill 2 (Py.str_of_nat m)) ∧
    Forall (fun m' : nat =>
      Py.zfill 2 (Py.str_of_nat m) = Py.zfill 2 (Py.str_of_nat m') → m = m')
      (seq 5 5))
    (seq 1 12).
Proof. apply (bool_decide_unpack _). vm_compute. exact I. Qed.

Lemma anomaly_output_feeds_detect_aux (existing : Py.disk) (dir Y : Py.str) (mon : nat) :
  "/"%char ∉ Y → "."%char ∉ Y → 1 ≤ mon ≤ 12 →
  let out := Anomaly.main_output
               (dir ++ "/"%char :: (Py.s2l "era5_ivt_" ++ Y ++ Py.zfill 2 (Py.str_of_nat mon))
                    ++ Py.s2l ".nc") in
  out ∈ existing →
  (out ∈ Detect.IVT_FILE_NAME existing ↔ 5 ≤ mon ≤ 9).
Proof.
  intros Hsl Hdot Hmon out Hout.
  pose proof two_digit_months as Hmm. rewrite Forall_forall in Hmm.
  destruct (Hmm mon) as (Hlen & Hsl' & Hdot' & Hinj); [apply elem_of_seq; lia|].
  rewrite Forall_forall in Hinj.
  set (MM := Py.zfill 2 (Py.str_of_nat mon)) in *.
  assert (out = (Detect.SOURCEDIR ++ Py.s2l "era5_ivt_") ++ Y ++ MM ++ Py.s2l "-ano-250.nc")
    as Hout_eq.
  { unfold out. rewrite anomaly_main_output_stem.
    - change Anomaly.OUTPUTDIR with Detect.SOURCEDIR. by rewrite <-!app_assoc.
    - done.
    - apply not_elem_of_literal; [done|]. rewrite elem_of_app. tauto.
    - apply not_elem_of_literal; [done|]. rewrite elem_of_app. tauto. }
  rewrite elem_of_IVT_FILE_NAME. split.
  - intros (_ & mon' & Hmon' & _ & [k Hk] & _).
    rewrite Hout_eq in Hk. rewrite drop_app_length in Hk.
    rewrite !app_assoc in Hk. apply app_inv_tail in Hk.
    destruct (Hmm mon') as (Hlen' & _); [apply elem_of_seq; lia|].
    apply app_inj_2 in Hk as [_ Hk]; [|by rewrite Hlen'].
    assert (mon = mon') as ->; [|done].
    apply Hinj; [apply elem_of_seq; lia|done].
  - intros Hmon'. split; [done|]. exists mon. split; [done|].
    fold MM. rewrite Hout_eq. split_and!.
    + by apply prefix_app_r.
    + rewrite drop_app_length. by exists Y.
    + rewrite drop_app_length. rewrite (length_app _ (Y ++ _)), (length_app Y).
      rewrite (length_app MM).
      rewrite take_app_length'; [done|lia].
Qed.

(** X16.  What [compute_ivt-anomaly.py] writes for an input
    [era5_ivt_<Y><MM>.nc] is on the list of [detect_ARs.py] exactly when the
    month [MM] is one of May to September. *)
Theorem anomaly_output_feeds_detect (existing : Py.disk) (dir Y : Py.str) (mon : nat) :
  "/"%char ∉ Y → "."%char ∉ Y → 1 ≤ mon ≤ 12 →
  let out := Anomaly.main_output
               (dir ++ "/"%char :: (Py.s2l "era5_ivt_" ++ Y ++ Py.zfill 2 (Py.str_of_nat mon))
                    ++ Py.s2l ".nc") in
  out ∈ existing →
  (out ∈ Detect.IVT_FILE_NAME existing ↔ 5 ≤ mon ≤ 9).
Proof. apply anomaly_output_feeds_detect_aux. Qed.

Lemma anomaly_output_feeds_detect_witness :
  let out := Py.s2l "/home/jingzhao/wangbp/era5/ivt250_summer_mon/era5_ivt_201108-ano-250.nc" in
  out ∈ Detect.IVT_FILE_NAME {[ out ]}.
Proof.
  intros out.
  refine (proj2 (anomaly_output_feeds_detect {[ out ]}
                   (Py.s2l "/home/jingzhao/wangbp/era5/ivt_summer_mon") (Py.s2l "2011") 8
                   _ _ _ _) _).
  - apply (bool_decide_unpack _). vm_compute. exact I.
  - apply (bool_decide_unpack _). vm_compute. exact I.
  - lia.
  - apply elem_of_singleton. vm_compute. reflexivity.
  - lia.
Defined.

End HandOffFacts.

(** ** The save stage of [trace_ARs.py] *)

Section TraceSaveFacts.
Import Trace.

(** The id of the track at index [ii], and its rows in the output table. *)
Local Abbreviation track_id := (fun (ii : nat) (tii : list track_row) =>
  make_trackid (from_option (fun r0 => dt_year (row_time r0)) 0%Z (head tii)) ii).
Local Abbreviation track_rows := (fun (ii : nat) (tii : list track_row) =>
  add_columns (track_id ii tii) <$> tii).

Lemma save_loop_from filename ii track_list df figures :
  0 < ii → Forall (fun tii => tii ≠ []) track_list →
  save_loop filename ii track_list (Some df) figures
  = (Ok (Some (df ++ concat (imap (fun k => track_rows (ii + k)) track_list))),
     figures ++ imap (fun k tii => plot_save_name filename (track_id (ii + k) tii))
                     track_list).
Proof.
  intros Hii Hne. revert ii df figures Hii.
  induction Hne as [|tii track_list Htii Hne IH]; intros ii df figures Hii.
  - cbn. by rewrite !app_nil_r.
  - destruct tii as [|r0 tii]; [done|].
    cbn [save_loop]. rewrite decide_False by lia. cbn beta iota zeta.
    rewrite IH by lia. rewrite !imap_cons. cbn [concat head from_option].
    rewrite Nat.add_0_r. rewrite <-!app_assoc. cbn [app].
    assert (∀ B (g : nat → list track_row → B),
              imap (fun k => g (S ii + k)) track_list
              = imap ((fun k => g (ii + k)) ∘ S) track_list) as Hshift.
    { intros B g. apply imap_ext. intros k t _. cbn. by rewrite Nat.add_succ_r. }
    rewrite (Hshift _ (fun n tii => add_columns (track_id n tii) <$> tii)).
    rewrite (Hshift _ (fun n tii => plot_save_name filename (track_id n tii))).
    reflexivity.
Qed.

Lemma save_loop_all filename tii track_list :
  Forall (fun tii => tii ≠ []) (tii :: track_list) →
  save_loop filename 0 (tii :: track_list) None []
  = (Ok (Some (concat (imap track_rows (tii :: track_list)))),
     imap (fun k tii => plot_save_name filename (track_id k tii)) (tii :: track_list)).
Proof.
  intros Hne. apply Forall_cons in Hne as [Htii Hne].
  destruct tii as [|r0 tii]; [done|].
  cbn [save_loop]. rewrite decide_True by done. cbn beta iota zeta.
  rewrite save_loop_from by (done || lia). rewrite !imap_cons.
  cbn [concat head from_option app]. done.
Qed.

Lemma save_loop_empty_track filename ii track_list df figures :
  Exists (fun tii => tii = []) track_list →
  ∃ e figures', save_loop filename ii track_list df figures = (Raise e, figures').
Proof.
  intros Hex. revert ii df figures.
  induction Hex as [tii track_list ->|tii track_list Hex IH]; intros ii df figures.
  - by eexists _, _.
  - destruct tii as [|r0 tii]; [by eexists _, _|].
    cbn [save_loop]. destruct (decide (ii = 0)); [apply IH|].
    destruct df; [apply IH|by eexists _, _].
Qed.

(** Every path the loop adds is a figure. *)
Lemma save_loop_figures filename ii track_list df figures p :
  p ∈ (save_loop filename ii track_list df figures).2 →
  p ∈ figures ∨ Py.s2l ".png" `suffix_of` p.
Proof.
  revert ii df figures. induction track_list as [|tii track_list IH];
    intros ii df figures; [by left|].
  destruct tii as [|r0 tii]; [by left|]. cbn [save_loop].
  assert (∀ q trackid, q ∈ figures ++ [plot_save_name filename trackid] →
            q ∈ figures ∨ Py.s2l ".png" `suffix_of` q) as Hfig.
  { intros q trackid [Hq|Hq%list_elem_of_singleton]%elem_of_app; [by left|].
    right. subst q. unfold plot_save_name. by eexists. }
  destruct (decide (ii = 0)).
  - intros [Hp|Hp]%IH; [by eapply Hfig|by right].
  - destruct df.
    + intros [Hp|Hp]%IH; [by eapply Hfig|by right].
    + cbn [snd]. by left.
Qed.

Lemma main_output_key filename :
  main_output filename
  = OUTPUTDIR ++ Py.s2l "ar_tracks_"
      ++ Py.slice filename (Some (-18)%Z) (Some (-4)%Z) ++ Py.s2l ".csv".
Proof. unfold main_output. by rewrite path_join_rel. Qed.

Lemma plot_dir_key filename :
  plot_dir filename
  = OUTPUTDIR ++ Py.s2l "plots_" ++ Py.slice filename (Some (-18)%Z) (Some (-4)%Z).
Proof. unfold plot_dir. by rewrite path_join_rel. Qed.

Lemma main_output_not_png filename : ¬ Py.s2l ".png" `suffix_of` main_output filename.
Proof.
  rewrite main_output_key. intros [k Hk]. apply (f_equal last) in Hk.
  rewrite !app_assoc, !last_app in Hk. vm_compute in Hk. discriminate.
Qed.

(** Without the table, no path but the two directories and the figures. *)
Lemma main_save_raises_disk existing filename track_list p :
  raises (main_save existing filename track_list).1 →
  p ∈ (main_save existing filename track_list).2 →
  p ∈ existing ∨ p = OUTPUTDIR ∨ p = plot_dir filename ∨ Py.s2l ".png" `suffix_of` p.
Proof.
  unfold main_save.
  pose proof (save_loop_figures filename 0 track_list None [] p) as Hfig.
  destruct (save_loop filename 0 track_list None []) as [[[df|]|e] figures];
    cbn [fst snd raises] in *; [done|..]; intros _;
    rewrite !elem_of_union, !elem_of_singleton, elem_of_list_to_set;
    (intros [[[?|?]|?]|Hp]; [tauto|tauto|tauto|]);
    destruct (Hfig Hp) as [[]%elem_of_nil|?]; tauto.
Qed.

Lemma main_save_raises_iff existing filename track_list :
  raises (main_save existing filename track_list).1
  ↔ track_list = [] ∨ Exists (fun tii => tii = []) track_list.
Proof.
  split.
  - intros Hr. destruct track_list as [|tii track_list]; [by left|]. right.
    destruct (decide (Exists (fun tii => tii = []) (tii :: track_list))) as [|Hn];
      [done|].
    apply not_Exists_Forall in Hn; [|apply _].
    unfold main_save in Hr. rewrite save_loop_all in Hr; [done|].
    eapply Forall_impl; [exact Hn|]. by intros t Ht.
  - intros [->|Hex]; [done|].
    destruct (save_loop_empty_track filename 0 track_list None [] Hex)
      as (e & figures & Heq).
    unfold main_save. by rewrite Heq.
Qed.

Lemma main_save_rows_aux existing filename track_list :
  track_list ≠ [] → Forall (fun tii => tii ≠ []) track_list →
  main_save existing filename track_list
  = (Ok (concat (imap track_rows track_list)),
     existing ∪ {[ OUTPUTDIR ]} ∪ {[ plot_dir filename ]}
       ∪ list_to_set (imap (fun ii tii => plot_save_name filename (track_id ii tii))
                           track_list)
       ∪ {[ main_output filename ]}).
Proof.
  intros Hnil Hne. destruct track_list as [|tii track_list]; [done|].
  unfold main_save. by rewrite save_loop_all.
Qed.

(** X17.  With at least one track, and a first row in every track, [main]
    writes one table: the rows of the tracks in the order of the list, each
    row with the id of its track ([<year of the first row><index + 1>]) and
    the year, month, day and hour of its own time; it saves one figure per
    track and the table under [ar_tracks_<name>.csv]. *)
Theorem main_save_rows (existing : Py.disk) (filename : Py.str)
    (track_list : list (list track_row)) :
  track_list ≠ [] → Forall (fun tii => tii ≠ []) track_list →
  main_save existing filename track_list
  = (Ok (concat (imap track_rows track_list)),
     existing ∪ {[ OUTPUTDIR ]} ∪ {[ plot_dir filename ]}
       ∪ list_to_set (imap (fun ii tii => plot_save_name filename (track_id ii tii))
                           track_list)
       ∪ {[ main_output filename ]}).
Proof. apply main_save_rows_aux. Qed.

Lemma main_save_rows_witness :
  let t1 := {| dt_year := 2011; dt_month := 5; dt_day := 1; dt_hour := 0 |} in
  let t2 := {| dt_year := 2011; dt_month := 5; dt_day := 1; dt_hour := 6 |} in
  let a := {| row_time := t1; row_rest := ["1"]%string |} in
  let b := {| row_time := t2; row_rest := ["2"]%string |} in
  (main_save ∅ (Py.s2l "/in/ar_records_2011050100.csv") [[a; b]; [b]]).1
  = Ok [ {| out_row_of := a; trackid := Py.s2l "20111";
            year := 2011; mon := 5; day := 1; hour := 0 |};
         {| out_row_of := b; trackid := Py.s2l "20111";
            year := 2011; mon := 5; day := 1; hour := 6 |};
         {| out_row_of := b; trackid := Py.s2l "20112";
            year := 2011; mon := 5; day := 1; hour := 6 |} ].
Proof.
  intros t1 t2 a b.
  refine (f_equal fst (main_save_rows ∅ (Py.s2l "/in/ar_records_2011050100.csv")
                         [[a; b]; [b]] _ _)).
  - discriminate.
  - repeat constructor; discriminate.
Defined.

(** X18.  [main] stops with an exception exactly when no track is left
    after filtering ([trackdf] is then never bound: [NameError] on line 140)
    or a track has no first row; it then writes no table, so that the driver,
    which had queued the input, queues it again on its next run. *)
Theorem main_save_failure_requeues (existing : Py.disk) (file : Py.str)
    (track_list : list (list track_row)) :
  file ∈ Trace.filename existing →
  (main_save existing file []).1 = Raise (NameError "trackdf")
  ∧ (raises (main_save existing file track_list).1
     ↔ track_list = [] ∨ Exists (fun tii => tii = []) track_list)
  ∧ (file ∈ Trace.filename (main_save existing file track_list).2
     ↔ raises (main_save existing file track_list).1).
Proof.
  intros Hq. split; [done|]. split; [apply main_save_raises_iff|].
  unfold Trace.filename in Hq. apply elem_of_pending in Hq as [Hlist Hout].
  apply elem_of_trace_filelist in Hlist as [Hex Hm].
  rewrite (trace_expected_is_output _ _ Hm) in Hout.
  unfold Trace.filename. rewrite elem_of_pending, elem_of_trace_filelist.
  rewrite (trace_expected_is_output _ _ Hm). split.
  - intros [_ Hnot]. destruct (main_save existing file track_list) as [[rows|e] disk] eqn:Hs;
      [|done]. exfalso. apply Hnot. cbn [snd].
    assert (track_list ≠ [] ∧ Forall (fun tii => tii ≠ []) track_list) as [Hnil Hne].
    { pose proof (main_save_raises_iff existing file track_list) as Hiff.
      rewrite Hs in Hiff. cbn [fst raises] in Hiff. split.
      - intros ->. apply Hiff. by left.
      - apply Forall_forall. intros t Ht ->. apply Hiff. right.
        apply Exists_exists. by exists []. }
    rewrite (main_save_rows_aux existing file track_list Hnil Hne) in Hs.
    injection Hs as _ <-. set_solver.
  - intros Hr. split.
    + split; [|done]. unfold main_save.
      destruct (save_loop file 0 track_list None []) as [[[df|]|e] figures];
        set_solver.
    + intros Hin.
      destruct (main_save_raises_disk existing file track_list _ Hr Hin)
        as [?|[Heq|[Heq|Hpng]]]; [done|..].
      * rewrite main_output_key in Heq. apply (f_equal length) in Heq.
        rewrite length_app in Heq. cbn in Heq. lia.
      * rewrite main_output_key, plot_dir_key in Heq.
        apply app_inv_head in Heq. vm_compute in Heq. discriminate.
      * by apply (main_output_not_png file).
Qed.

Lemma main_save_failure_requeues_witness :
  let file :=
    Py.s2l "/home/jingzhao/wangbp/era5/AR_TEST/THR/arinfo_250/ar_records_2011050100.csv" in
  (main_save {[ file ]} file []).1 = Raise (NameError "trackdf")
  ∧ file ∈ Trace.filename (main_save {[ file ]} file []).2.
Proof.
  intros file.
  assert (file ∈ Trace.filename {[ file ]}) as Hq.
  { unfold Trace.filename. apply elem_of_pending. split.
    - apply elem_of_trace_filelist. split; [by apply elem_of_singleton|].
      unfold Py.glob_match. split_and!;
        apply (bool_decide_unpack _); vm_compute; exact I.
    - rewrite elem_of_singleton. vm_compute. discriminate. }
  destruct (main_save_failure_requeues {[ file ]} file [] Hq) as (Hraise & _ & Hiff).
  split; [exact Hraise|]. apply Hiff. exact I.
Defined.

(** *** Track ids *)

Lemma str_of_Z_inj (a b : Z) : Py.str_of_Z a = Py.str_of_Z b → a = b.
Proof.
  assert (∀ z, Z.to_int z ≠ Decimal.Pos Decimal.Nil ∧
               Z.to_int z ≠ Decimal.Neg Decimal.Nil) as Hnil.
  { intros z. split; intros Hz; pose proof (DecimalZ.of_to z) as Hof;
      rewrite Hz in Hof; cbn in Hof; subst z; vm_compute in Hz; discriminate. }
  unfold Py.str_of_Z, Py.s2l. intros Heq.
  apply (f_equal string_of_list_ascii) in Heq.
  rewrite !string_of_list_ascii_of_string in Heq.
  apply (f_equal DecimalString.NilZero.int_of_string) in Heq.
  rewrite !DecimalString.NilZero.isi in Heq by apply Hnil.
  injection Heq as Heq. by apply DecimalZ.to_int_inj.
Qed.

Lemma four_digit_years :
  Forall (fun y : nat => length (Py.str_of_nat y) = 4) (seq 1000 (90 * 100)).
Proof. apply (bool_decide_unpack _). vm_compute. exact I. Qed.

Lemma length_str_of_year (y : Z) :
  (1000 ≤ y ≤ 9999)%Z → length (Py.str_of_Z y) = 4.
Proof.
  intros Hy. pose proof four_digit_years as H4. rewrite Forall_forall in H4.
  specialize (H4 (Z.to_nat y)). unfold Py.str_of_nat in H4.
  rewrite Z2Nat.id in H4 by lia. apply H4. apply elem_of_seq. lia.
Qed.

(** X19.  The tracks of one file get different ids when the years of their
    first rows have four digits: the id is the year followed by the index
    plus one.  Years of different lengths can give one id to two tracks
    ([1] with index 10, and [11] with index 0, both give [111]). *)
Theorem track_ids_distinct (track_list : list (list track_row)) :
  Forall (fun tii => ∃ r0 rest, tii = r0 :: rest ∧
                     (1000 ≤ dt_year (row_time r0) ≤ 9999)%Z) track_list →
  NoDup (imap track_id track_list)
  ∧ make_trackid 1 10 = make_trackid 11 0.
Proof.
  intros Hy. split; [|by vm_compute].
  apply NoDup_alt. intros i j x Hi Hj.
  rewrite list_lookup_imap in Hi, Hj.
  destruct (track_list !! i) as [ti|] eqn:Hti; [|done].
  destruct (track_list !! j) as [tj|] eqn:Htj; [|done].
  cbn in Hi, Hj. rewrite Forall_forall in Hy.
  destruct (Hy ti) as (ri & resti & -> & Hyi); [by eapply list_elem_of_lookup_2|].
  destruct (Hy tj) as (rj & restj & -> & Hyj); [by eapply list_elem_of_lookup_2|].
  cbn [head from_option] in Hi, Hj. unfold make_trackid in Hi, Hj.
  assert (Py.str_of_Z (Z.of_nat i + 1) = Py.str_of_Z (Z.of_nat j + 1)) as Heq.
  { eapply (app_inj_1 (Py.str_of_Z (dt_year (row_time ri))) (Py.str_of_Z (dt_year (row_time rj)))).
    - by rewrite !length_str_of_year.
    - congruence. }
  apply str_of_Z_inj in Heq. lia.
Qed.

Lemma track_ids_distinct_witness :
  let t1 := {| dt_year := 2011; dt_month := 5; dt_day := 1; dt_hour := 0 |} in
  let a := {| row_time := t1; row_rest := ["1"]%string |} in
  NoDup (imap track_id [[a]; [a]]).
Proof.
  intros t1 a.
  refine (proj1 (track_ids_distinct [[a]; [a]] _)).
  repeat constructor; eexists _, _; (split; [reflexivity|cbn; lia]).
Defined.

End TraceSaveFacts.

(** ** From the decomposition to the shape check of the detection *)

Section DecompositionToDetection.
Import Np.

Lemma squeeze_decomposition ivt kernel ivt_mean raw rec ano :
  Anomaly.filterData ivt kernel = Ok (raw, rec, ano) ∨
  Anomaly.filterData_250 ivt ivt_mean = Ok (raw, rec, ano) →
  shape (squeeze raw) = shape (squeeze ivt).
Proof.
  intros Hf. destruct (decomposition_shape _ _ _ _ _ _ Hf) as (_ & _ & _ & Hs).
  unfold squeeze at 1. cbn [shape]. rewrite Hs.
  assert (filter (fun d => d ≠ 1) (shape (squeeze ivt)) = shape (squeeze ivt)) as Hidem.
  { unfold squeeze. cbn [shape]. by rewrite list_filter_filter_l. }
  case_decide; [|done].
  rewrite filter_app, filter_cons_False by (intros Hne; by apply Hne).
  by rewrite <-filter_app, take_drop.
Qed.

(** X20.  A file written by [compute_ivt-anomaly.py] fails the shape check
    of [detect_ARs.py] exactly when the field that was decomposed does not
    have three axes longer than 1: the level axis that the decomposition
    puts back is squeezed away again, and so is the time axis of a file with
    a single time step. *)
Theorem decomposed_file_shape_check
    (gen : Detect.finder) (fs : Detect.filesystem) (f : Py.str)
    (var IVT_mean raw rec ano : ndarray Z) :
  Anomaly.main_decompose var IVT_mean = Ok (raw, rec, ano) →
  fs !! f = Some (Detect.NcInput raw rec ano) →
  ((Detect.main gen fs f).1 = Raise (Exception "<qu> and <qv> should be 3D data.")
   ↔ length (filter (fun d => d ≠ 1) (shape var)) ≠ 3)
  ∧ (∀ Y X, shape var = [1; 1; Y; X] →
       (Detect.main gen fs f).1 = Raise (Exception "<qu> and <qv> should be 3D data.")).
Proof.
  intros Hd Hf.
  assert (ndim (squeeze raw) = length (filter (fun d => d ≠ 1) (shape var))) as Hn.
  { unfold ndim. by rewrite (squeeze_decomposition var [] IVT_mean raw rec ano)
      by (by right). }
  assert ((Detect.main gen fs f).1 = Raise (Exception "<qu> and <qv> should be 3D data.")
          ↔ length (filter (fun d => d ≠ 1) (shape var)) ≠ 3) as Hiff.
  { rewrite <-Hn. by apply main_shape_error_iff with rec ano. }
  split; [exact Hiff|]. intros Y X Hshape. apply Hiff. rewrite Hshape.
  rewrite !filter_cons_False by (intros Hne; by apply Hne).
  pose proof (length_filter (fun d => d ≠ 1) [Y; X]) as Hle. cbn [length] in Hle. lia.
Qed.

Lemma decomposed_file_shape_check_witness :
  let var := NdArray [1; 1; 2; 3] [300; 310; 320; 330; 340; 350]%Z in
  let IVT_mean := NdArray [2; 3] [100; 100; 100; 100; 100; 100]%Z in
  let gen : Detect.finder := fun _ _ _ _ _ => [] in
  let f := Py.s2l "/in/era5_ivt_201105-ano-250.nc" in
  ∃ raw rec ano,
    Anomaly.main_decompose var IVT_mean = Ok (raw, rec, ano) ∧
    (Detect.main gen {[ f := Detect.NcInput raw rec ano ]} f).1
    = Raise (Exception "<qu> and <qv> should be 3D data.").
Proof.
  intros var IVT_mean gen f. do 3 eexists. split; [vm_compute; reflexivity|].
  refine (proj2 (decomposed_file_shape_check gen _ f var IVT_mean _ _ _ _ _) 2 3 _).
  - vm_compute. reflexivity.
  - apply lookup_singleton_eq.
  - reflexivity.
Defined.

End DecompositionToDetection.

(** ** The magnitude in [compute_ivt.py] *)

Section IvtMagnitudeFacts.
Import Np Ivt.
Local Open Scope R_scope.

Lemma magnitude_bounds (u v : R) :
  Rmax (Rabs u) (Rabs v) <= sqrt (u * u + v * v) <= Rabs u + Rabs v.
Proof.
  pose proof (Rabs_pos u) as Hu. pose proof (Rabs_pos v) as Hv.
  assert (u * u = Rabs u * Rabs u) as Eu
    by (unfold Rabs; destruct (Rcase_abs u); ring).
  assert (v * v = Rabs v * Rabs v) as Ev
    by (unfold Rabs; destruct (Rcase_abs v); ring).
  rewrite Eu, Ev. split.
  - apply Rmax_lub.
    + rewrite <-(sqrt_square (Rabs u)) at 1 by done. apply sqrt_le_1_alt. nra.
    + rewrite <-(sqrt_square (Rabs v)) at 1 by done. apply sqrt_le_1_alt. nra.
  - rewrite <-(sqrt_square (Rabs u + Rabs v)) by lra. apply sqrt_le_1_alt. nra.
Qed.

Lemma ivtdata_comm (uflux vflux : ndarray R) :
  shape uflux = shape vflux → ivtdata uflux vflux = ivtdata vflux uflux.
Proof.
  intros Hs. unfold ivtdata, binop, square, unop. cbn [shape data].
  rewrite <-Hs, broadcast_shapes_same. cbn [mbind result_bind].
  do 2 f_equal. unfold tabulate. f_equal.
  apply list_fmap_ext. intros _ idx _. apply Rplus_comm.
Qed.

Lemma ivtdata_cells (uflux vflux : ndarray R) :
  wf uflux → wf vflux → shape uflux = shape vflux →
  ∃ ivt,
    ivtdata uflux vflux = Ok ivt ∧
    ∀ idx, in_bounds idx (shape uflux) →
      item ivt idx
        = Some (sqrt (item uflux idx * item uflux idx + item vflux idx * item vflux idx)).
Proof.
  intros Hu Hv Hs. unfold ivtdata.
  destruct (binop_same_shape Rplus (square uflux) (square vflux))
    as (c & Hc & Hsc & Hcell); [done|].
  rewrite Hc. cbn [mbind result_bind]. eexists. split; [done|].
  intros idx Hb.
  assert (wf c) as Hwfc.
  { unfold binop in Hc. destruct (broadcast_shapes _ _); [|done].
    injection Hc as <-. apply wf_tabulate. }
  rewrite item_unop; [|done|by rewrite Hsc].
  rewrite Hcell by done. unfold square.
  rewrite !item_unop; [|done|by rewrite <-Hs|done|done].
  apply ma_sqrt_sum_squares.
Qed.



End IvtMagnitudeFacts.
